(** * SnapScalp: the analysis loop, the provider service and the renderer

    A shallow embedding of [main.js], [llm-service.js] and [renderer.js].

    Conventions of the embedding.
    - A JavaScript string is the list of its UTF-16 code units ([list N]);
      [js "abc"] turns an ASCII literal into such a list.
    - A JavaScript object used as a dictionary is a [gmap]; a value that
      comes out of [JSON.parse] is a [Value] (objects keep their bindings in
      source order, the last binding of a key is the one that is read).
    - A method of a class is a computation in the monad [M S], where [S] is
      the state of the object: it returns or throws, updates the state and
      appends to the trace of the outward effects (messages sent to the
      window, screen captures, provider invocations).
    - [await] is sequencing: a callback is run to completion, the outcome of
      each awaited operation is read from the environment [Env].
    - [console.log] and [console.error] have no effect on the state and are
      left out. *)

From Stdlib Require Import ZArith NArith QArith Qround Strings.String Strings.Ascii
  Numbers.DecimalString.
From Stdlib Require Numbers.DecimalN Numbers.DecimalPos Numbers.DecimalFacts.
From stdpp Require Import base option list gmap strings.

Local Open Scope N_scope.

Abbreviation jsstring := (list N).

(** [js s]: the code units of an ASCII literal. *)
Definition js (s : string) : jsstring := N_of_ascii <$> list_ascii_of_string s.

(** ** Built-ins of the language used by the program *)
Module JS.

Definition emdash : jsstring := [8212].

(** WhiteSpace and LineTerminator code units: what [String.prototype.trim]
    strips and what [\s] matches. *)
Definition is_ws (c : N) : bool :=
  (c =? 9) || (c =? 10) || (c =? 11) || (c =? 12) || (c =? 13) || (c =? 32)
  || (c =? 160) || (c =? 5760) || ((8192 <=? c) && (c <=? 8202))
  || (c =? 8232) || (c =? 8233) || (c =? 8239) || (c =? 8287)
  || (c =? 12288) || (c =? 65279).

Fixpoint trimStart (s : jsstring) : jsstring :=
  match s with
  | c :: s' => if is_ws c then trimStart s' else s
  | [] => []
  end.

Definition trimEnd (s : jsstring) : jsstring :=
  reverse (trimStart (reverse s)).

Definition trim (s : jsstring) : jsstring := trimEnd (trimStart s).

Fixpoint startsWith (p s : jsstring) : bool :=
  match p, s with
  | [], _ => true
  | a :: p', b :: s' => (a =? b) && startsWith p' s'
  | _ :: _, [] => false
  end.

Definition endsWith (p s : jsstring) : bool :=
  startsWith (reverse p) (reverse s).

(** [s.includes(p)]. *)
Fixpoint includes (p s : jsstring) : bool :=
  startsWith p s || match s with _ :: s' => includes p s' | [] => false end.

(** [s.slice(a, b)] on a string or an array: a negative index counts from
    the end, both are clamped to the length. *)
Definition slice_index (len i : Z) : Z :=
  if (i <? 0)%Z then Z.max (len + i) 0 else Z.min i len.

Definition slice {A} (a b : Z) (s : list A) : list A :=
  let len := Z.of_nat (length s) in
  let from := slice_index len a in
  let to := slice_index len b in
  take (Z.to_nat (Z.max (to - from) 0)) (drop (Z.to_nat from) s).

(** [s.substring(a, b)] for [0 <= a <= b]. *)
Definition substring (a b : nat) (s : jsstring) : jsstring :=
  take (b - a) (drop a s).

(** Case mapping, on the ASCII letters (other code units are kept). *)
Definition lower (c : N) : N := if (65 <=? c) && (c <=? 90) then c + 32 else c.
Definition upper (c : N) : N := if (97 <=? c) && (c <=? 122) then c - 32 else c.
Definition toLowerCase (s : jsstring) : jsstring := lower <$> s.
Definition toUpperCase (s : jsstring) : jsstring := upper <$> s.

Fixpoint join (sep : jsstring) (l : list jsstring) : jsstring :=
  match l with
  | [] => []
  | [x] => x
  | x :: l' => x ++ sep ++ join sep l'
  end.

(** Decimal digits of a natural number. *)
Definition digits_of_N (n : N) : jsstring :=
  js (NilEmpty.string_of_uint (N.to_uint n)).

Definition is_digit (c : N) : bool := (48 <=? c) && (c <=? 57).

(** *** Numbers

    A finite number is kept as the decimal expansion the specification of
    [Number::toString] works with: sign, significant digits [d1 .. dk]
    (no leading and no trailing zero, none at all for zero) and the
    position [n] of the decimal point, for the value
    [0.d1...dk * 10^n].  The expansion is the exact decimal value of the
    literal or integer it was read from; the rounding to a double, which
    changes literals of more than 15 significant digits, is not
    modelled. *)
Record Num := mkNum { neg : bool; digs : list N; point : Z }.

Inductive Number := NaN | Fin (n : Num).

Definition zero : Num := mkNum false [] 0.

Fixpoint strip_zeros (l : list N) : list N :=
  match l with
  | d :: l' => if d =? 0 then strip_zeros l' else l
  | [] => []
  end.

(** The number with digit values [ds] (most significant first) and the
    decimal point after the first [n] of them. *)
Definition normalize (sign : bool) (ds : list N) (n : Z) : Num :=
  let lead := strip_zeros ds in
  let sig := reverse (strip_zeros (reverse lead)) in
  match sig with
  | [] => mkNum sign [] 0
  | _ => mkNum sign sig (n - Z.of_nat (length ds - length lead))
  end.

Definition digit_values (s : jsstring) : list N := (λ c, c - 48) <$> s.

Definition Num_of_Z (z : Z) : Num :=
  let ds := digit_values (digits_of_N (Z.to_N (Z.abs z))) in
  normalize (z <? 0)%Z ds (Z.of_nat (length ds)).

Definition is_zero (n : Num) : bool :=
  match digs n with [] => true | _ => false end.

Definition digit_chars (ds : list N) : jsstring := (λ d, d + 48) <$> ds.

(** [Number::toString], radix 10. *)
Definition Num_toString (x : Num) : jsstring :=
  match digs x with
  | [] => js "0"
  | d1 :: rest =>
    let k := Z.of_nat (length (digs x)) in
    let n := point x in
    let s := digit_chars (digs x) in
    let body :=
      if ((k <=? n) && (n <=? 21))%Z then
        s ++ replicate (Z.to_nat (n - k)) 48
      else if ((0 <? n) && (n <=? 21))%Z then
        take (Z.to_nat n) s ++ js "." ++ drop (Z.to_nat n) s
      else if ((-6 <? n) && (n <=? 0))%Z then
        js "0." ++ replicate (Z.to_nat (- n)) 48 ++ s
      else
        let e := (n - 1)%Z in
        let es := js (if (e <? 0)%Z then "-" else "+")
                  ++ digits_of_N (Z.to_N (Z.abs e)) in
        match rest with
        | [] => digit_chars [d1] ++ js "e" ++ es
        | _ => digit_chars [d1] ++ js "." ++ digit_chars rest ++ js "e" ++ es
        end
    in (if neg x then js "-" else []) ++ body
  end.

Definition Number_toString (x : Number) : jsstring :=
  match x with
  | NaN => js "NaN"
  | Fin n => Num_toString n
  end.

(** *** [parseInt(string)] with no radix argument *)
Definition hex_value (c : N) : option N :=
  if is_digit c then Some (c - 48)
  else if (97 <=? c) && (c <=? 102) then Some (c - 87)
  else if (65 <=? c) && (c <=? 70) then Some (c - 55)
  else None.

Definition dec_value (c : N) : option N :=
  if is_digit c then Some (c - 48) else None.

(** The longest prefix of digits of the radix, as their values. *)
Fixpoint digit_prefix (value : N → option N) (s : jsstring) : list N :=
  match s with
  | c :: s' =>
    match value c with
    | Some d => d :: digit_prefix value s'
    | None => []
    end
  | [] => []
  end.

Definition radix_value (r : N) (ds : list N) : N :=
  foldl (λ acc d, acc * r + d) 0 ds.

Definition parseInt_string (input : jsstring) : Number :=
  let s := trimStart input in
  let '(sign, s) :=
    match s with
    | c :: s' =>
      if c =? 45 then (true, s') else if c =? 43 then (false, s') else (false, s)
    | [] => (false, s)
    end in
  let '(r, value, s) :=
    match s with
    | c0 :: cx :: s' =>
      if (c0 =? 48) && ((cx =? 120) || (cx =? 88)) then (16, hex_value, s')
      else (10, dec_value, s)
    | _ => (10, dec_value, s)
    end in
  match digit_prefix value s with
  | [] => NaN
  | ds =>
    let m := Z.of_N (radix_value r ds) in
    Fin (mkNum sign (digs (Num_of_Z m)) (point (Num_of_Z m)))
  end.


(** *** Values

    What [JSON.parse] can return, and [undefined].  An object keeps its
    bindings in the order of the text. *)
#[warnings="-register-all"] Inductive Value :=
| VUndefined
| VNull
| VBool (b : bool)
| VNum (n : Num)
| VStr (s : jsstring)
| VArr (l : list Value)
| VObj (l : list (jsstring * Value)).

(** ToBoolean. *)
Definition truthy (v : Value) : bool :=
  match v with
  | VUndefined | VNull => false
  | VBool b => b
  | VNum n => negb (is_zero n)
  | VStr s => match s with [] => false | _ => true end
  | VArr _ | VObj _ => true
  end.

(** [a || b]. *)
Definition or_else (a b : Value) : Value := if truthy a then a else b.

(** The value of an own property: the last binding of the key. *)
Fixpoint own_property (k : jsstring) (l : list (jsstring * Value)) : option Value :=
  match l with
  | [] => None
  | (k', v) :: l' =>
    match own_property k l' with
    | Some w => Some w
    | None => if decide (k = k') then Some v else None
    end
  end.

(** [v.k] for a key [k] that no prototype defines (all the keys the
    program reads are such): a TypeError ([None]) on [undefined] and
    [null], the own property of an object, [undefined] otherwise. *)
Definition get (v : Value) (k : jsstring) : option Value :=
  match v with
  | VUndefined | VNull => None
  | VObj l => Some (default VUndefined (own_property k l))
  | _ => Some VUndefined
  end.

(** [v[i]] for a value [v] that is neither [undefined] nor [null]. *)
Definition get_index (v : Value) (i : nat) : Value :=
  match v with
  | VArr l => default VUndefined (l !! i)
  | VStr s => match s !! i with Some c => VStr [c] | None => VUndefined end
  | VObj l => default VUndefined (own_property (digits_of_N (N.of_nat i)) l)
  | _ => VUndefined
  end.

(** ToString; [None] is the TypeError of an object whose own [toString]
    property hides the inherited method (no value of [JSON.parse] is
    callable). *)
Fixpoint ToString (v : Value) : option jsstring :=
  match v with
  | VUndefined => Some (js "undefined")
  | VNull => Some (js "null")
  | VBool b => Some (js (if b then "true" else "false"))
  | VNum n => Some (Num_toString n)
  | VStr s => Some s
  | VArr l =>
    join (js ",") <$>
      (fix elements (l : list Value) : option (list jsstring) :=
         match l with
         | [] => Some []
         | x :: l' =>
           match (match x with
                  | VUndefined | VNull => Some []
                  | _ => ToString x
                  end), elements l' with
           | Some s, Some r => Some (s :: r)
           | _, _ => None
           end
         end) l
  | VObj l =>
    match own_property (js "toString") l with
    | Some _ => None
    | None => Some (js "[object Object]")
    end
  end.

(** [parseInt(v)]: the argument is converted to a string first. *)
Definition parseInt (v : Value) : option Number :=
  parseInt_string <$> ToString v.

(** *** Errors and outcomes *)
Inductive JsError :=
| Error (message : jsstring)
| TypeError (message : jsstring).

Definition message (e : JsError) : jsstring :=
  match e with Error m | TypeError m => m end.

End JS.

(** ** [JSON.parse] and [JSON.stringify]

    [JSON.parse] is a push-down recogniser that reads the text one code
    unit at a time: [step] is its transition, [accept] tells whether the
    text may end in a state.  It builds the value on a stack of the open
    arrays and objects. *)
Module JSON.
Import JS.

Definition is_json_ws (c : N) : bool :=
  (c =? 9) || (c =? 10) || (c =? 13) || (c =? 32).

(** An open container: the elements read so far (latest first) and, in
    an object, the key whose value is being read. *)
Inductive Frame :=
| FArr (acc : list Value)
| FObj (acc : list (jsstring * Value)) (key : option jsstring).

(** Where the recogniser is inside a number literal. *)
Inductive NumPhase :=
| NMinus      (* after the sign: a digit must follow *)
| NZero       (* after a leading zero *)
| NInt        (* in the integer digits *)
| NDot        (* after the point: a digit must follow *)
| NFrac       (* in the fraction digits *)
| NE          (* after e or E: a sign or a digit must follow *)
| NESign      (* after the sign of the exponent: a digit must follow *)
| NExp.       (* in the exponent digits *)

Record NumAcc := mkNumAcc {
  n_neg : bool;
  n_int : list N;       (* digit values, most significant first *)
  n_frac : list N;
  n_eneg : bool;
  n_exp : list N
}.

(** Where the recogniser is inside [true], [false] or [null]: the
    letters read so far. *)
Inductive LitPhase :=
| L_t | L_tr | L_tru
| L_f | L_fa | L_fal | L_fals
| L_n | L_nu | L_nul.

(** The letter that must follow, and what it leads to. *)
Definition lit_next (p : LitPhase) : N * (LitPhase + Value) :=
  match p with
  | L_t => (114, inl L_tr)
  | L_tr => (117, inl L_tru)
  | L_tru => (101, inr (VBool true))
  | L_f => (97, inl L_fa)
  | L_fa => (108, inl L_fal)
  | L_fal => (115, inl L_fals)
  | L_fals => (101, inr (VBool false))
  | L_n => (117, inl L_nu)
  | L_nu => (108, inl L_nul)
  | L_nul => (108, inr VNull)
  end.

Inductive Mode :=
| MValue                                  (* a value must start *)
| MArrStart                               (* after [: a value or ] *)
| MObjStart                               (* after {: a key or } *)
| MKey                                    (* after , in an object: a key *)
| MColon                                  (* after a key *)
| MAfter                                  (* after a value in a container *)
| MStr (key : bool) (acc : jsstring)      (* in a string, latest unit first *)
| MEsc (key : bool) (acc : jsstring)      (* after a backslash *)
| MHex (key : bool) (acc : jsstring) (h : list N)   (* in \uXXXX *)
| MNum (p : NumPhase) (a : NumAcc)
| MLit (p : LitPhase)                     (* in true, false or null *)
| MDone (v : Value)                       (* the top-level value is read *)
| MErr.

Record State := mkState { stack : list Frame; mode : Mode }.

Definition failed : State := mkState [] MErr.
Definition initial : State := mkState [] MValue.

(** A value is complete: it goes to the innermost open container. *)
Definition complete (v : Value) (st : list Frame) : State :=
  match st with
  | [] => mkState [] (MDone v)
  | FArr acc :: r => mkState (FArr (v :: acc) :: r) MAfter
  | FObj acc (Some k) :: r => mkState (FObj ((k, v) :: acc) None :: r) MAfter
  | FObj _ None :: _ => failed
  end.

Definition number_value (a : NumAcc) : Num :=
  let e := Z.of_N (radix_value 10 (n_exp a)) in
  normalize (n_neg a) (n_int a ++ n_frac a)
    (Z.of_nat (length (n_int a)) + (if n_eneg a then - e else e))%Z.

Definition number_ended (p : NumPhase) : bool :=
  match p with
  | NZero | NInt | NFrac | NExp => true
  | _ => false
  end.

(** After a value: a separator, a closing bracket or white space. *)
Definition step_after (s : State) (c : N) : State :=
  match mode s with
  | MDone v => if is_json_ws c then s else failed
  | MAfter =>
    if is_json_ws c then s
    else match stack s with
    | FArr acc :: r =>
      if c =? 44 then mkState (stack s) MValue
      else if c =? 93 then complete (VArr (reverse acc)) r
      else failed
    | FObj acc None :: r =>
      if c =? 44 then mkState (stack s) MKey
      else if c =? 125 then complete (VObj (reverse acc)) r
      else failed
    | _ => failed
    end
  | _ => failed
  end.

Definition step_number (st : list Frame) (p : NumPhase) (a : NumAcc) (c : N)
  : State :=
  let d := c - 48 in
  let continue p' a' := mkState st (MNum p' a') in
  let finish :=
    if number_ended p then
      step_after (complete (VNum (number_value a)) st) c
    else failed in
  let add_int := mkNumAcc (n_neg a) (n_int a ++ [d]) (n_frac a) (n_eneg a) (n_exp a) in
  let add_frac := mkNumAcc (n_neg a) (n_int a) (n_frac a ++ [d]) (n_eneg a) (n_exp a) in
  let add_exp := mkNumAcc (n_neg a) (n_int a) (n_frac a) (n_eneg a) (n_exp a ++ [d]) in
  let exp_sign b := mkNumAcc (n_neg a) (n_int a) (n_frac a) b (n_exp a) in
  let is_e := (c =? 101) || (c =? 69) in
  match p with
  | NMinus =>
    if c =? 48 then continue NZero add_int
    else if is_digit c then continue NInt add_int
    else failed
  | NZero =>
    if c =? 46 then continue NDot a
    else if is_e then continue NE a
    else if is_digit c then failed
    else finish
  | NInt =>
    if is_digit c then continue NInt add_int
    else if c =? 46 then continue NDot a
    else if is_e then continue NE a
    else finish
  | NDot => if is_digit c then continue NFrac add_frac else failed
  | NFrac =>
    if is_digit c then continue NFrac add_frac
    else if is_e then continue NE a
    else finish
  | NE =>
    if c =? 43 then continue NESign (exp_sign false)
    else if c =? 45 then continue NESign (exp_sign true)
    else if is_digit c then continue NExp add_exp
    else failed
  | NESign => if is_digit c then continue NExp add_exp else failed
  | NExp => if is_digit c then continue NExp add_exp else finish
  end.

(** A value starts with [c]. *)
Definition step_value (st : list Frame) (c : N) : State :=
  if c =? 123 then mkState (FObj [] None :: st) MObjStart
  else if c =? 91 then mkState (FArr [] :: st) MArrStart
  else if c =? 34 then mkState st (MStr false [])
  else if c =? 45 then mkState st (MNum NMinus (mkNumAcc true [] [] false []))
  else if c =? 48 then mkState st (MNum NZero (mkNumAcc false [0] [] false []))
  else if is_digit c then mkState st (MNum NInt (mkNumAcc false [c - 48] [] false []))
  else if c =? 116 then mkState st (MLit L_t)
  else if c =? 102 then mkState st (MLit L_f)
  else if c =? 110 then mkState st (MLit L_n)
  else failed.

(** The character after a backslash. *)
Definition escape (c : N) : option N :=
  if c =? 34 then Some 34
  else if c =? 92 then Some 92
  else if c =? 47 then Some 47
  else if c =? 98 then Some 8
  else if c =? 102 then Some 12
  else if c =? 110 then Some 10
  else if c =? 114 then Some 13
  else if c =? 116 then Some 9
  else None.

(** A string is closed: it is a key of the innermost object or a value. *)
Definition close_string (st : list Frame) (key : bool) (s : jsstring) : State :=
  if key then
    match st with
    | FObj acc _ :: r => mkState (FObj acc (Some s) :: r) MColon
    | _ => failed
    end
  else complete (VStr s) st.

Definition step (s : State) (c : N) : State :=
  let st := stack s in
  match mode s with
  | MValue => if is_json_ws c then s else step_value st c
  | MArrStart =>
    if is_json_ws c then s
    else if c =? 93 then
      match st with
      | FArr _ :: r => complete (VArr []) r
      | _ => failed
      end
    else step_value st c
  | MObjStart =>
    if is_json_ws c then s
    else if c =? 125 then
      match st with
      | FObj _ _ :: r => complete (VObj []) r
      | _ => failed
      end
    else if c =? 34 then mkState st (MStr true [])
    else failed
  | MKey =>
    if is_json_ws c then s
    else if c =? 34 then mkState st (MStr true [])
    else failed
  | MColon =>
    if is_json_ws c then s
    else if c =? 58 then mkState st MValue
    else failed
  | MAfter | MDone _ => step_after s c
  | MStr key acc =>
    if c =? 34 then close_string st key (reverse acc)
    else if c =? 92 then mkState st (MEsc key acc)
    else if c <? 32 then failed
    else mkState st (MStr key (c :: acc))
  | MEsc key acc =>
    if c =? 117 then mkState st (MHex key acc [])
    else match escape c with
         | Some x => mkState st (MStr key (x :: acc))
         | None => failed
         end
  | MHex key acc h =>
    match hex_value c with
    | Some d =>
      if decide (length h = 3%nat)
      then mkState st (MStr key (radix_value 16 (h ++ [d]) :: acc))
      else mkState st (MHex key acc (h ++ [d]))
    | None => failed
    end
  | MNum p a => step_number st p a c
  | MLit p =>
    if c =? (lit_next p).1 then
      match (lit_next p).2 with
      | inl p' => mkState st (MLit p')
      | inr v => complete v st
      end
    else failed
  | MErr => failed
  end.

(** The text may end here: the top-level value is read. *)
Definition accept (s : State) : option Value :=
  match stack s, mode s with
  | [], MDone v => Some v
  | [], MNum p a => if number_ended p then Some (VNum (number_value a)) else None
  | _, _ => None
  end.

Definition run (s : State) (text : jsstring) : State := foldl step s text.

(** [JSON.parse(text)]; [None] is the SyntaxError. *)
Definition parse (text : jsstring) : option Value := accept (run initial text).

(** *** [JSON.stringify] *)
Definition hex_digit (d : N) : N := if d <? 10 then d + 48 else d + 87.

Definition unicode_escape (c : N) : jsstring :=
  js "\u" ++ [hex_digit (c / 4096); hex_digit ((c / 256) mod 16);
              hex_digit ((c / 16) mod 16); hex_digit (c mod 16)].

Definition is_lead (c : N) : bool := (55296 <=? c) && (c <=? 56319).
Definition is_trail (c : N) : bool := (56320 <=? c) && (c <=? 57343).

Definition quote_unit (c : N) : jsstring :=
  if c =? 8 then js "\b"
  else if c =? 9 then js "\t"
  else if c =? 10 then js "\n"
  else if c =? 12 then js "\f"
  else if c =? 13 then js "\r"
  else if c =? 34 then [92; 34]
  else if c =? 92 then [92; 92]
  else if c <? 32 then unicode_escape c
  else [c].

(** The body of QuoteJSONString: a surrogate that is not part of a pair
    is written as an escape. *)
Fixpoint quote_body (s : jsstring) : jsstring :=
  match s with
  | [] => []
  | c :: s' =>
    if is_lead c then
      match s' with
      | c' :: s'' =>
        if is_trail c' then c :: c' :: quote_body s''
        else unicode_escape c ++ quote_body s'
      | [] => unicode_escape c
      end
    else if is_trail c then unicode_escape c ++ quote_body s'
    else quote_unit c ++ quote_body s'
  end.

Definition quote (s : jsstring) : jsstring := [34] ++ quote_body s ++ [34].

(** [JSON.stringify(v)] with no indentation; [None] is [undefined].  The
    properties of an object are written in the order of its bindings
    (the order of creation, for the keys the program uses). *)
Fixpoint stringify (v : Value) : option jsstring :=
  match v with
  | VUndefined => None
  | VNull => Some (js "null")
  | VBool b => Some (js (if b then "true" else "false"))
  | VNum n => Some (Num_toString n)
  | VStr s => Some (quote s)
  | VArr l =>
    Some (js "[" ++
      join (js ",")
        ((fix elements (l : list Value) : list jsstring :=
            match l with
            | [] => []
            | x :: l' => default (js "null") (stringify x) :: elements l'
            end) l)
      ++ js "]")
  | VObj l =>
    Some (js "{" ++
      join (js ",")
        ((fix members (l : list (jsstring * Value)) : list jsstring :=
            match l with
            | [] => []
            | (k, x) :: l' =>
              match stringify x with
              | Some t => (quote k ++ js ":" ++ t) :: members l'
              | None => members l'
              end
            end) l)
      ++ js "}")
  end.

End JSON.

(** ** Data of the program and the monad of its methods *)

(** A literal in which ['] stands for the double quote. *)
Definition dq (s : string) : jsstring := (λ c, if c =? 39 then 34 else c) <$> js s.

(** The selected screen region ([captureArea]), in logical pixels. *)
Record Region := mkRegion { area_x : Q; area_y : Q; area_width : Q; area_height : Q }.

(** The area handed to [sharp.extract], in physical pixels. *)
Record CropArea := mkCropArea {
  crop_left : Z; crop_top : Z; crop_width : Z; crop_height : Z
}.

(** A display of [screen.getAllDisplays()]. *)
Record Display := mkDisplay { scaleFactor : Q }.

Abbreviation Buffer := (list N) (only parsing).

(** What [captureScreenshot] resolves to. *)
Inductive CaptureResult :=
| CaptureSuccess (image : jsstring) (cropArea : CropArea)
| CaptureFailure (error : jsstring).

Definition success (r : CaptureResult) : bool :=
  match r with CaptureSuccess _ _ => true | CaptureFailure _ => false end.

(** The chat models of LangChain, with the options they are built from. *)
Record ModelOptions := mkModelOptions {
  apiKey : jsstring;
  modelName : jsstring;
  temperature : Q;
  maxTokens : N;
  baseURL : option jsstring
}.

Inductive ChatModel :=
| ChatOpenAI (options : ModelOptions)
| ChatAnthropic (options : ModelOptions).

Inductive ContentPart :=
| TextPart (text : jsstring)
| ImageUrlPart (url : jsstring).

Inductive HumanMessage :=
| HumanMessageParts (content : list ContentPart)
| HumanMessageText (content : jsstring).

(** The outward effects of a method, in the order they happen. *)
Inductive IOEvent :=
| Sent (channel : jsstring) (args : list jsstring)   (* webContents.send *)
| Screenshot                                         (* screenshot({format}) *)
| SharpExtract (img : Buffer) (area : CropArea)      (* sharp(img).extract(area) *)
| Invoke (m : ChatModel) (messages : list HumanMessage).   (* model.invoke *)

Inductive Res (A : Type) : Type :=
| Ret (a : A)
| Throw (e : JS.JsError).
Arguments Ret {A} a.
Arguments Throw {A} e.

(** What the awaited operations of one callback resolve to. *)
Record Env := mkEnv {
  getAllDisplays : list Display;
  screenshot : Res Buffer;
  extract : Buffer → CropArea → Res Buffer;
  base64 : Buffer → jsstring;
  invoke : ChatModel → list HumanMessage → Res jsstring;   (* response.content *)
  toLocaleTimeString : jsstring
}.

(** A method over an object of state [S]: outcome, new state, effects. *)
Definition M (S A : Type) : Type := S → Res A * S * list IOEvent.

Global Instance M_ret {S} : MRet (M S) := λ A a s, (Ret a, s, []).

Global Instance M_bind {S} : MBind (M S) := λ A B f m s,
  match m s with
  | (Ret a, s1, t1) =>
    match f a s1 with
    | (r, s2, t2) => (r, s2, t1 ++ t2)
    end
  | (Throw e, s1, t1) => (Throw e, s1, t1)
  end.

Definition throw {S A} (e : JS.JsError) : M S A := λ s, (Throw e, s, []).

(** [try { m } catch (error) { h error }]. *)
Definition try_catch {S A} (m : M S A) (h : JS.JsError → M S A) : M S A := λ s,
  match m s with
  | (Throw e, s1, t1) =>
    match h e s1 with
    | (r, s2, t2) => (r, s2, t1 ++ t2)
    end
  | r => r
  end.

Definition this {S} : M S S := λ s, (Ret s, s, []).
Definition assign {S} (f : S → S) : M S unit := λ s, (Ret tt, f s, []).
Definition emit {S} (ev : IOEvent) : M S unit := λ s, (Ret tt, s, [ev]).

(** [await p] for a promise that is settled with [r]. *)
Definition await {S A} (r : Res A) : M S A := λ s, (r, s, []).

(** A method of a member object, run on that member. *)
Definition on_member {S T A} (proj : S → T) (upd : T → S → S) (m : M T A) : M S A :=
  λ s, match m (proj s) with (r, t, evs) => (r, upd t s, evs) end.

(** ** [llm-service.js] *)
Module LLMService.
Import JS.

(** The fields of the service; [provider] is set to [null] by the
    constructor and never assigned again. *)
Record t := mk {
  provider : option jsstring;
  model : option ChatModel;
  apiKeys : gmap jsstring jsstring;
  currentProvider : jsstring
}.

Definition set_model (m : ChatModel) (s : t) : t :=
  mk (provider s) (Some m) (apiKeys s) (currentProvider s).
Definition set_apiKeys (k : gmap jsstring jsstring) (s : t) : t :=
  mk (provider s) (model s) k (currentProvider s).
Definition set_currentProvider (p : jsstring) (s : t) : t :=
  mk (provider s) (model s) (apiKeys s) p.

Definition no_keys : gmap jsstring jsstring :=
  {[ js "openai" := []; js "claude" := []; js "perplexity" := [] ]}.

Definition constructor : t := mk None None no_keys (js "openai").

Definition setupProvider : M t unit :=
  s ← this;
  let p := toLowerCase (currentProvider s) in
  if decide (p = js "openai") then
    match apiKeys s !! js "openai" with
    | Some (c :: k) =>
      assign (set_model (ChatOpenAI
        (mkModelOptions (c :: k) (js "gpt-5-chat-latest") (1 # 10) 400 None)))
    | _ => throw (Error (js "OpenAI API key not configured"))
    end
  else if decide (p = js "claude") then
    match apiKeys s !! js "claude" with
    | Some (c :: k) =>
      assign (set_model (ChatAnthropic
        (mkModelOptions (c :: k) (js "claude-3-5-sonnet-20241022") (1 # 10) 400 None)))
    | _ => throw (Error (js "Claude API key not configured"))
    end
  else if decide (p = js "perplexity") then
    match apiKeys s !! js "perplexity" with
    | Some (c :: k) =>
      assign (set_model (ChatOpenAI
        (mkModelOptions (c :: k) (js "sonar-pro") (1 # 10) 400
           (Some (js "https://api.perplexity.ai")))))
    | _ => throw (Error (js "Perplexity API key not configured"))
    end
  else throw (Error (js "Unsupported LLM provider: " ++ currentProvider s)).

(** [initialize(config)]: [config.provider || 'openai'], and the keys of
    the configuration laid over the present ones. *)
Definition initialize (config_provider : jsstring)
    (config_apiKeys : gmap jsstring jsstring) : M t unit :=
  assign (set_currentProvider
            (match config_provider with [] => js "openai" | p => p end));;
  assign (λ s, set_apiKeys (config_apiKeys ∪ apiKeys s) s);;
  setupProvider.

Definition getAnalysisPrompt : jsstring :=
  join [10] [
    js "You are a trading assistant for intraday scalpers. Analyze this chart screenshot that may contain labels like HH LH HL LL BOS ChoCH PDH supply demand premium discount and price levels.";
    [];
    js "Goal: Return the most actionable decision now using only what is visible. Be concise. No disclaimers.";
    [];
    js "Rules:";
    [8226] ++ js " Use exact numbers visible on chart when possible";
    [8226] ++ js " If numbers not fully visible give nearest integer";
    [8226] ++ js " Prefer 1 or 3 minute context if both visible";
    [8226] ++ js " Keep total characters under 420";
    [8226] ++ js " Return ONLY valid JSON matching the schema";
    [8226] ++ js " Use arrays even for single scenario";
    [];
    js "Required JSON Schema:";
    js "{";
    dq "  'decision': 'Long' | 'Short' | 'Wait',";
    dq "  'confidence': 1-100,";
    dq "  'reason': 'string (max 80 chars)',";
    dq "  'scenarios': [";
    js "    {";
    dq "      'side': 'Long' | 'Short',";
    dq "      'entry': 'string',";
    dq "      'stop': 'string', ";
    dq "      'targets': ['string'],";
    dq "      'conditions': 'string (max 60 chars)',";
    dq "      'invalidate': 'string (max 40 chars)'";
    js "    }";
    js "  ],";
    dq "  'levels': {";
    dq "    'support': ['string'],";
    dq "    'resistance': ['string']";
    js "  }";
    js "}";
    [];
    js "Analyze and reply with JSON only."
  ].

(** *** The regular expression of [extractJsonFromResponse]

    [/```json\s*([\s\S]*?)\s*```/], as the backtracking matcher runs it. *)
Definition fence : jsstring := js "```".

(** [\s*```] at the head of [s]: the greedy star takes a white space
    first and gives it back when the rest does not match. *)
Fixpoint ws_fence (s : jsstring) : bool :=
  match s with
  | c :: s' => (is_ws c && ws_fence s') || startsWith fence s
  | [] => startsWith fence s
  end.

(** [([\s\S]*?)\s*```]: the lazy group grows by one code unit each time
    the rest does not match. The result is the text of the group. *)
Fixpoint lazy_group (s : jsstring) : option jsstring :=
  if ws_fence s then Some []
  else match s with
  | c :: s' => (c ::.) <$> lazy_group s'
  | [] => None
  end.

(** [\s*([\s\S]*?)\s*```], after the tag. *)
Fixpoint after_tag (s : jsstring) : option jsstring :=
  match s with
  | c :: s' =>
    if is_ws c then
      match after_tag s' with
      | Some g => Some g
      | None => lazy_group s
      end
    else lazy_group s
  | [] => lazy_group s
  end.

Definition match_here (s : jsstring) : option jsstring :=
  if startsWith (js "```json") s then after_tag (drop 7 s) else None.

(** [s.match(re)]: the leftmost match; the result is group 1. *)
Fixpoint jsonBlockMatch (s : jsstring) : option jsstring :=
  match match_here s with
  | Some g => Some g
  | None =>
    match s with
    | _ :: s' => jsonBlockMatch s'
    | [] => None
    end
  end.

(** The object both fallbacks are built from. *)
Definition fallback (reason : jsstring) : Value :=
  VObj [ (js "decision", VStr (js "Wait"));
         (js "confidence", VNum (Num_of_Z 50));
         (js "reason", VStr reason);
         (js "scenarios", VArr []);
         (js "levels", VObj [ (js "support", VArr []);
                              (js "resistance", VArr []) ]) ].

Definition stringify_object (v : Value) : jsstring := default [] (JSON.stringify v).

(** The value of [cleaned] when it is validated: the content trimmed,
    without its fence. *)
Definition cleaned (content : jsstring) : jsstring :=
  let cleaned := trim content in
  match jsonBlockMatch cleaned with
  | Some g => trim g
  | None =>
    if startsWith fence cleaned && endsWith fence cleaned
    then trim (slice 3 (-3) cleaned)
    else cleaned
  end.

Definition extractJsonFromResponse (content : jsstring) : jsstring :=
  match content with
  | [] => js "{}"
  | _ =>
    match JSON.parse (cleaned content) with
    | Some _ => cleaned content
    | None => stringify_object (fallback (js "JSON parsing error"))
    end
  end.

Definition analyzeChart (env : Env) (imageBase64 : jsstring) : M t jsstring :=
  s ← this;
  match model s with
  | None => throw (Error (js "LLM service not initialized"))
  | Some m =>
    let prompt := getAnalysisPrompt in
    try_catch
      (if bool_decide (currentProvider s = js "openai")
          || bool_decide (currentProvider s = js "claude") then
         let message := HumanMessageParts
           [ TextPart prompt;
             ImageUrlPart (js "data:image/png;base64," ++ imageBase64) ] in
         emit (Invoke m [message]);;
         content ← await (invoke env m [message]);
         mret (extractJsonFromResponse content)
       else
         let textPrompt := prompt ++ [10; 10] ++
           js "Note: Image analysis not available with current provider. Please provide text-based market analysis." in
         let message := HumanMessageText textPrompt in
         emit (Invoke m [message]);;
         _ ← await (invoke env m [message]);
         mret (stringify_object
                 (fallback (js "Text-only analysis - image vision not supported"))))
      (λ error, throw (Error (js "Analysis failed with " ++ currentProvider s
                              ++ js ": " ++ message error)))
  end.

Definition getModelName (s : t) : jsstring :=
  if decide (currentProvider s = js "openai") then js "gpt-4o"
  else if decide (currentProvider s = js "claude") then js "claude-3-5-sonnet-20241022"
  else if decide (currentProvider s = js "perplexity")
       then js "llama-3.1-sonar-large-128k-online"
  else js "unknown".

Record ProviderInfo := mkProviderInfo {
  info_provider : jsstring;
  hasVisionSupport : bool;
  info_modelName : jsstring
}.

Definition getProviderInfo (s : t) : ProviderInfo :=
  mkProviderInfo (currentProvider s)
    (bool_decide (currentProvider s = js "openai")
     || bool_decide (currentProvider s = js "claude"))
    (getModelName s).

Definition switchProvider (provider : jsstring) : M t unit :=
  s ← this;
  if decide (provider ≠ currentProvider s) then
    assign (set_currentProvider provider);;
    setupProvider
  else mret tt.

End LLMService.

(** ** [main.js] *)
Module SnapScalpMain.
Import JS.

(** [this.config]; [apiKeys] holds the own properties of the object, the
    only ones the program assigns. *)
Record Config := mkConfig {
  provider : jsstring;
  apiKeys : gmap jsstring jsstring
}.

Inductive BrowserWindow := MainWindow | OverlayWindow.

(** The fields of the application object. *)
Record t := mk {
  mainWindow : option BrowserWindow;
  overlayWindow : option BrowserWindow;
  captureArea : option Region;
  isAnalyzing : bool;
  analysisInterval : option N;
  llmService : LLMService.t;
  config : Config
}.

(** The two callbacks [startAnalysis] hands to the timers. *)
Inductive Callback := ImmediateAnalysis | AnalysisLoop.

Record Timer := mkTimer { repeat : bool; delay : N; callback : Callback }.

(** The application object and the timers of the process: what
    [setTimeout] and [setInterval] have scheduled, by timer id. *)
Record World := mkWorld {
  self : t;
  timers : gmap N Timer;
  nextTimer : N
}.

Definition set_self (f : t → t) (w : World) : World :=
  mkWorld (f (self w)) (timers w) (nextTimer w).

Definition set_captureArea (a : option Region) (s : t) : t :=
  mk (mainWindow s) (overlayWindow s) a (isAnalyzing s) (analysisInterval s)
     (llmService s) (config s).
Definition set_overlayWindow (o : option BrowserWindow) (s : t) : t :=
  mk (mainWindow s) o (captureArea s) (isAnalyzing s) (analysisInterval s)
     (llmService s) (config s).
Definition set_mainWindow (o : option BrowserWindow) (s : t) : t :=
  mk o (overlayWindow s) (captureArea s) (isAnalyzing s) (analysisInterval s)
     (llmService s) (config s).
Definition set_isAnalyzing (b : bool) (s : t) : t :=
  mk (mainWindow s) (overlayWindow s) (captureArea s) b (analysisInterval s)
     (llmService s) (config s).
Definition set_analysisInterval (i : option N) (s : t) : t :=
  mk (mainWindow s) (overlayWindow s) (captureArea s) (isAnalyzing s) i
     (llmService s) (config s).
Definition set_llmService (l : LLMService.t) (s : t) : t :=
  mk (mainWindow s) (overlayWindow s) (captureArea s) (isAnalyzing s)
     (analysisInterval s) l (config s).
Definition set_config (c : Config) (s : t) : t :=
  mk (mainWindow s) (overlayWindow s) (captureArea s) (isAnalyzing s)
     (analysisInterval s) (llmService s) c.

(** A method of [this.llmService]. *)
Definition on_llmService {A} (m : M LLMService.t A) : M World A :=
  on_member (λ w, llmService (self w)) (λ l, set_self (set_llmService l)) m.

Definition schedule (tm : Timer) : M World N := λ w,
  (Ret (nextTimer w),
   mkWorld (self w) (<[nextTimer w := tm]> (timers w)) (nextTimer w + 1), []).

Definition setTimeout (cb : Callback) (ms : N) : M World N :=
  schedule (mkTimer false ms cb).
Definition setInterval (cb : Callback) (ms : N) : M World N :=
  schedule (mkTimer true ms cb).
Definition clearInterval (id : N) : M World unit :=
  assign (λ w, mkWorld (self w) (delete id (timers w)) (nextTimer w)).

(** [this.mainWindow?.webContents.send(channel, ...args)]: nothing is
    sent while there is no window. *)
Definition send (channel : jsstring) (args : list jsstring) : M World unit :=
  w ← this;
  match mainWindow (self w) with
  | Some _ => emit (Sent channel args)
  | None => mret tt
  end.

(** [!!this.config.apiKeys[this.config.provider]]. *)
Definition hasApiKey (c : Config) : bool :=
  match apiKeys c !! provider c with
  | Some (_ :: _) => true
  | _ => false
  end.

Definition constructor : t :=
  mk None None None false None LLMService.constructor
     (mkConfig (js "openai") LLMService.no_keys).

(** [loadConfiguration], from the keys the files and the process
    environment resolve to: a failure of [initialize] is logged. *)
Definition loadConfiguration (openai claude perplexity : jsstring) : M World unit :=
  assign (set_self (λ s, set_config
    (mkConfig (provider (config s))
       (<[js "openai" := openai]> (<[js "claude" := claude]>
          (<[js "perplexity" := perplexity]> (apiKeys (config s)))))) s));;
  w ← this;
  try_catch
    (on_llmService (LLMService.initialize (provider (config (self w)))
                      (apiKeys (config (self w)))))
    (λ error, mret tt).

(** *** The handlers of [setupIpcHandlers] *)
Record LlmConfig := mkLlmConfig {
  cfg_provider : jsstring;
  providerInfo : LLMService.ProviderInfo;
  cfg_hasApiKey : bool
}.

Definition get_llm_config : M World LlmConfig :=
  w ← this;
  mret (mkLlmConfig (provider (config (self w)))
          (LLMService.getProviderInfo (llmService (self w)))
          (hasApiKey (config (self w)))).

Inductive SwitchResult :=
| SwitchSuccess (provider : jsstring)
| SwitchFailure (error : jsstring).

Definition switch_llm_provider (p : jsstring) : M World SwitchResult :=
  try_catch
    (assign (set_self (λ s, set_config
       (mkConfig (toLowerCase p) (apiKeys (config s))) s));;
     w ← this;
     on_llmService (LLMService.switchProvider (provider (config (self w))));;
     w ← this;
     mret (SwitchSuccess (provider (config (self w)))))
    (λ error, mret (SwitchFailure (message error))).

Definition get_capture_area : M World (option Region) :=
  w ← this; mret (captureArea (self w)).

(** The listener of [area-selected] in [selectArea]. *)
Definition area_selected (area : option Region) : M World unit :=
  assign (set_self (set_captureArea area));;
  assign (set_self (set_overlayWindow None)).

(** [Math.round], on exact rationals. *)
Definition Math_round (q : Q) : Z := Qfloor (q + (1 # 2)).

(** The crop area: the region scaled by the pixel density of the
    display, each coordinate rounded. *)
Definition crop_area (area : Region) (scaleFactor : Q) : CropArea :=
  mkCropArea
    (Math_round (area_x area * scaleFactor))
    (Math_round (area_y area * scaleFactor))
    (Math_round (area_width area * scaleFactor))
    (Math_round (area_height area * scaleFactor)).

(** [primaryDisplay.scaleFactor || 1]. *)
Definition scale_of (d : Display) : Q :=
  if Qeq_bool (scaleFactor d) 0 then 1%Q else scaleFactor d.

Definition captureScreenshot (env : Env) : M World CaptureResult :=
  w ← this;
  match captureArea (self w) with
  | None => throw (Error (js "No capture area set"))
  | Some area =>
    try_catch
      (let displays := getAllDisplays env in
       let primaryDisplay := displays !! 0%nat in
       emit Screenshot;;
       img ← await (screenshot env);
       match primaryDisplay with
       | None => throw (TypeError
           (js "Cannot read properties of undefined (reading 'scaleFactor')"))
       | Some d =>
         let scaleFactor := scale_of d in
         let cropArea := crop_area area scaleFactor in
         emit (SharpExtract img cropArea);;
         croppedBuffer ← await (extract env img cropArea);
         mret (CaptureSuccess (base64 env croppedBuffer) cropArea)
       end)
      (λ error, mret (CaptureFailure (message error)))
  end.

Definition analyzeChart (env : Env) (imageBase64 : jsstring) : M World jsstring :=
  try_catch
    (on_llmService (LLMService.analyzeChart env imageBase64))
    (λ error, throw (Error (js "Analysis failed: " ++ message error))).

(** The status texts of a callback. *)
Record Labels := mkLabels {
  capturing : jsstring;
  analyzing : jsstring;
  updated : jsstring;
  capture_failed : jsstring;
  analysis_error : jsstring
}.

(** The body shared by the two callbacks of [startAnalysis], which differ
    in their status texts only. *)
Definition cycle (env : Env) (l : Labels) : M World unit :=
  w ← this;
  if negb (isAnalyzing (self w)) then mret tt
  else
    try_catch
      (send (js "status-update") [capturing l];;
       screenshot ← captureScreenshot env;
       match screenshot with
       | CaptureSuccess image _ =>
         send (js "status-update") [analyzing l];;
         analysis ← analyzeChart env image;
         send (js "analysis-result") [analysis; image];;
         send (js "status-update") [updated l]
       | CaptureFailure _ =>
         send (js "status-update") [capture_failed l]
       end)
      (λ error, send (js "status-update") [analysis_error l]).

Definition immediate_labels : Labels :=
  mkLabels (js "Capturing (immediate)") (js "Analyzing (immediate)")
    (js "Updated (immediate)") (js "Immediate capture failed")
    (js "Immediate analysis error").

Definition loop_labels (env : Env) : Labels :=
  mkLabels (js "Capturing") (js "Analyzing")
    (js "Updated at " ++ toLocaleTimeString env) (js "Capture failed")
    (js "Analysis error").

Definition run_callback (env : Env) (cb : Callback) : M World unit :=
  match cb with
  | ImmediateAnalysis => cycle env immediate_labels
  | AnalysisLoop => cycle env (loop_labels env)
  end.

(** [startAnalysis]; the result is the [success] field of the object it
    returns. *)
Definition startAnalysis : M World bool :=
  w ← this;
  if negb (hasApiKey (config (self w))) then
    throw (Error (js "Missing API key for " ++ provider (config (self w))))
  else match captureArea (self w) with
  | None => throw (Error (js "No capture area set"))
  | Some _ =>
    assign (set_self (set_isAnalyzing true));;
    setTimeout ImmediateAnalysis 2000;;
    id ← setInterval AnalysisLoop 30000;
    assign (set_self (set_analysisInterval (Some id)));;
    mret true
  end.

Definition stopAnalysis : M World bool :=
  assign (set_self (set_isAnalyzing false));;
  w ← this;
  match analysisInterval (self w) with
  | Some id =>
    clearInterval id;;
    assign (set_self (set_analysisInterval None))
  | None => mret tt
  end;;
  mret true.

(** The timer [id] fires: a timeout is spent, an interval stays. *)
Definition fire (env : Env) (id : N) : M World unit :=
  w ← this;
  match timers w !! id with
  | Some tm =>
    (if repeat tm then mret tt else clearInterval id);;
    run_callback env (callback tm)
  | None => mret tt
  end.

(** *** The process

    What may happen next: a timer fires, or the window invokes a handler.
    An error a handler throws goes back to the window; the process goes
    on from the world the handler left. *)
Inductive Action :=
| Fire (env : Env) (id : N)
| Start
| Stop
| Switch (p : jsstring)
| SelectArea (area : option Region).

Definition outcome {A} (r : Res A * World * list IOEvent) : World * list IOEvent :=
  (r.1.2, r.2).

Definition perform (a : Action) (w : World) : World * list IOEvent :=
  match a with
  | Fire env id => outcome (fire env id w)
  | Start => outcome (startAnalysis w)
  | Stop => outcome (stopAnalysis w)
  | Switch p => outcome (switch_llm_provider p w)
  | SelectArea area => outcome (area_selected area w)
  end.

Fixpoint perform_all (l : list Action) (w : World) : World * list IOEvent :=
  match l with
  | [] => (w, [])
  | a :: l' =>
    let (w1, e1) := perform a w in
    let (w2, e2) := perform_all l' w1 in
    (w2, e1 ++ e2)
  end.

End SnapScalpMain.

(** ** [renderer.js] *)
Module SnapScalpRenderer.
Import JS.

(** A row of the scenarios table. *)
Record Row := mkRow { innerHTML : jsstring; row_classList : list jsstring }.

(** The elements of the page the renderer writes to. *)
Record t := mk {
  statusLabel : jsstring;               (* statusLabel.textContent *)
  decisionText : jsstring;              (* decisionText.textContent *)
  decisionFlash : bool;                 (* decision-flash in its classList *)
  confidenceValue : jsstring;
  reasonText : jsstring;
  decisionBanner : list jsstring;       (* the classes of the banner *)
  scenariosTbody : list Row;
  supportBadge : jsstring;
  resistanceBadge : jsstring;
  previewImage : option jsstring        (* previewImage.src, once shown *)
}.

Definition set_statusLabel (v : jsstring) (d : t) : t :=
  mk v (decisionText d) (decisionFlash d) (confidenceValue d) (reasonText d)
     (decisionBanner d) (scenariosTbody d) (supportBadge d) (resistanceBadge d)
     (previewImage d).
Definition set_decisionText (v : jsstring) (d : t) : t :=
  mk (statusLabel d) v (decisionFlash d) (confidenceValue d) (reasonText d)
     (decisionBanner d) (scenariosTbody d) (supportBadge d) (resistanceBadge d)
     (previewImage d).
Definition set_decisionFlash (v : bool) (d : t) : t :=
  mk (statusLabel d) (decisionText d) v (confidenceValue d) (reasonText d)
     (decisionBanner d) (scenariosTbody d) (supportBadge d) (resistanceBadge d)
     (previewImage d).
Definition set_confidenceValue (v : jsstring) (d : t) : t :=
  mk (statusLabel d) (decisionText d) (decisionFlash d) v (reasonText d)
     (decisionBanner d) (scenariosTbody d) (supportBadge d) (resistanceBadge d)
     (previewImage d).
Definition set_reasonText (v : jsstring) (d : t) : t :=
  mk (statusLabel d) (decisionText d) (decisionFlash d) (confidenceValue d) v
     (decisionBanner d) (scenariosTbody d) (supportBadge d) (resistanceBadge d)
     (previewImage d).
Definition set_decisionBanner (v : list jsstring) (d : t) : t :=
  mk (statusLabel d) (decisionText d) (decisionFlash d) (confidenceValue d)
     (reasonText d) v (scenariosTbody d) (supportBadge d) (resistanceBadge d)
     (previewImage d).
Definition set_scenariosTbody (v : list Row) (d : t) : t :=
  mk (statusLabel d) (decisionText d) (decisionFlash d) (confidenceValue d)
     (reasonText d) (decisionBanner d) v (supportBadge d) (resistanceBadge d)
     (previewImage d).
Definition set_supportBadge (v : jsstring) (d : t) : t :=
  mk (statusLabel d) (decisionText d) (decisionFlash d) (confidenceValue d)
     (reasonText d) (decisionBanner d) (scenariosTbody d) v (resistanceBadge d)
     (previewImage d).
Definition set_resistanceBadge (v : jsstring) (d : t) : t :=
  mk (statusLabel d) (decisionText d) (decisionFlash d) (confidenceValue d)
     (reasonText d) (decisionBanner d) (scenariosTbody d) (supportBadge d) v
     (previewImage d).
Definition set_previewImage (v : option jsstring) (d : t) : t :=
  mk (statusLabel d) (decisionText d) (decisionFlash d) (confidenceValue d)
     (reasonText d) (decisionBanner d) (scenariosTbody d) (supportBadge d)
     (resistanceBadge d) v.

(** The result of an operation that throws a TypeError when it has
    none. *)
Definition must {A} (o : option A) : M t A :=
  match o with
  | Some a => mret a
  | None => throw (TypeError (js "TypeError"))
  end.

(** Method calls on a value of [JSON.parse]: the method exists on the
    values listed, the call of a missing method is a TypeError. *)
Definition call_toUpperCase (v : Value) : option jsstring :=
  match v with VStr s => Some (toUpperCase s) | _ => None end.
Definition call_toLowerCase (v : Value) : option jsstring :=
  match v with VStr s => Some (toLowerCase s) | _ => None end.
Definition call_substring (a b : nat) (v : Value) : option jsstring :=
  match v with VStr s => Some (substring a b s) | _ => None end.
Definition call_slice (a b : Z) (v : Value) : option Value :=
  match v with
  | VStr s => Some (VStr (slice a b s))
  | VArr l => Some (VArr (slice a b l))
  | _ => None
  end.
Definition call_join (sep : jsstring) (v : Value) : option jsstring :=
  match v with
  | VArr l =>
    join sep <$> mapM (λ x, match x with
                            | VUndefined | VNull => Some []
                            | _ => ToString x
                            end) l
  | _ => None
  end.

Definition updateStatus (status : jsstring) : M t unit :=
  assign (set_statusLabel status).

(** The template of a row: six cells, each on a line of its own. *)
Definition row_template (cells : list jsstring) : jsstring :=
  concat ((λ c, [10] ++ replicate 16 32 ++ js "<td>" ++ c ++ js "</td>") <$> cells)
  ++ [10] ++ replicate 12 32.

(** The callback of [scenarios.forEach]. *)
Definition scenario_row (scenario : Value) : M t unit :=
  side ← must (get scenario (js "side"));
  let side := or_else side (VStr []) in
  entry ← must (get scenario (js "entry"));
  let entry := or_else entry (VStr []) in
  stop ← must (get scenario (js "stop"));
  let stop := or_else stop (VStr []) in
  targets ← must (get scenario (js "targets"));
  let targets := or_else targets (VArr []) in
  let t1 := or_else (get_index targets 0) (VStr emdash) in
  let t2 := or_else (get_index targets 1) (VStr emdash) in
  let t3 := or_else (get_index targets 2) (VStr emdash) in
  cells ← must (mapM ToString [side; entry; stop; t1; t2; t3]);
  let html := row_template cells in
  lowered ← must (call_toLowerCase side);
  let classes :=
    if decide (lowered = js "long") then [js "long"]
    else if decide (lowered = js "short") then [js "short"]
    else [] in
  assign (λ d, set_scenariosTbody (scenariosTbody d ++ [mkRow html classes]) d).

Fixpoint forEach (f : Value → M t unit) (l : list Value) : M t unit :=
  match l with
  | [] => mret tt
  | v :: l' => f v;; forEach f l'
  end.

Definition updateScenariosTable (scenarios : Value) : M t unit :=
  assign (set_scenariosTbody []);;
  match scenarios with
  | VArr l => forEach scenario_row l
  | _ => throw (TypeError (js "scenarios.forEach is not a function"))
  end.

(** [(levels.k || []).slice(0, 2).join(' ') || '—']. *)
Definition level_text (levels : Value) (k : jsstring) : M t jsstring :=
  v ← must (get levels k);
  sliced ← must (call_slice 0 2 (or_else v (VArr [])));
  joined ← must (call_join (js " ") sliced);
  mret (match joined with [] => emdash | _ => joined end).

Definition updateResults (analysisText : jsstring) : M t unit :=
  try_catch
    (data ← must (JSON.parse analysisText);
     decision ← must (get data (js "decision"));
     let decision := or_else decision (VStr (js "WAIT")) in
     confidence ← must (get data (js "confidence"));
     confidence ← must (parseInt (or_else confidence (VNum zero)));
     reason ← must (get data (js "reason"));
     reason ← must (call_substring 0 80 (or_else reason (VStr [])));
     scenarios ← must (get data (js "scenarios"));
     scenarios ← must (call_slice 0 2 (or_else scenarios (VArr [])));
     levels ← must (get data (js "levels"));
     let levels := or_else levels (VObj []) in
     shown ← must (call_toUpperCase decision);
     assign (set_decisionText shown);;
     assign (set_confidenceValue (Number_toString confidence));;
     assign (set_reasonText (match reason with [] => emdash | _ => reason end));;
     assign (set_decisionFlash true);;
     assign (set_decisionBanner [js "decision-banner"]);;
     lowered ← must (call_toLowerCase decision);
     assign (λ d, set_decisionBanner
       (decisionBanner d ++
          [if decide (lowered = js "long") then js "long"
           else if decide (lowered = js "short") then js "short"
           else js "wait"]) d);;
     updateScenariosTable scenarios;;
     support ← level_text levels (js "support");
     resistance ← level_text levels (js "resistance");
     assign (set_supportBadge (js "S " ++ support));;
     assign (set_resistanceBadge (js "R " ++ resistance)))
    (λ error, updateStatus (js "Parse error")).

Definition updatePreview (imageBase64 : jsstring) : M t unit :=
  match imageBase64 with
  | [] => mret tt
  | _ => assign (set_previewImage (Some (js "data:image/png;base64," ++ imageBase64)))
  end.

(** The listener of [analysis-result]. *)
Definition onAnalysisResult (analysisText imageBase64 : jsstring) : M t unit :=
  updateResults analysisText;;
  updatePreview imageBase64.

End SnapScalpRenderer.

(** ** Definitions used to state the properties

    Nothing below is part of the program: these are the expected outcomes
    of its operations, the typed view of a payload, and sample
    configurations at which the theorems are instantiated. *)

(** The state a method leaves behind. *)
Definition state_after {S A} (m : M S A) (s : S) : S := (m s).1.2.

(** A key that is missing or empty: [!key] in the program. *)
Definition absent (k : option jsstring) : Prop := k = None ∨ k = Some [].

Module Expected.
Import JS SnapScalpMain.

(** The error of [startAnalysis]: the key is tested first. *)
Definition start_error (w : World) : JsError :=
  if hasApiKey (config (self w))
  then Error (js "No capture area set")
  else Error (js "Missing API key for " ++ provider (config (self w))).

(** The world after a successful [startAnalysis]: the flag is set, the
    probe and the recurring timer are scheduled. *)
Definition started (w : World) : World :=
  mkWorld
    (set_analysisInterval (Some (nextTimer w + 1)) (set_isAnalyzing true (self w)))
    (<[nextTimer w + 1 := mkTimer true 30000 AnalysisLoop]>
       (<[nextTimer w := mkTimer false 2000 ImmediateAnalysis]> (timers w)))
    (nextTimer w + 1 + 1).

(** The world after the timer [id] has fired, whatever its callback did:
    a timeout is removed from the table. *)
Definition spent (id : N) (w : World) : World :=
  match timers w !! id with
  | Some tm =>
    if repeat tm then w else mkWorld (self w) (delete id (timers w)) (nextTimer w)
  | None => w
  end.

Definition labels_of (env : Env) (cb : Callback) : Labels :=
  match cb with
  | ImmediateAnalysis => immediate_labels
  | AnalysisLoop => loop_labels env
  end.

Definition status : jsstring := js "status-update".

(** An effect that is not a message to the window. *)
Definition io_only (ev : IOEvent) : Prop :=
  match ev with Sent _ _ => False | _ => True end.

(** A message to the window that shows no detail of an error: a status
    with one of the fixed texts of the callback, or a result. *)
Definition generic (l : Labels) (ev : IOEvent) : Prop :=
  match ev with
  | Sent ch args =>
    (ch = status ∧
     (args = [capturing l] ∨ args = [analyzing l] ∨ args = [updated l]
      ∨ args = [capture_failed l] ∨ args = [analysis_error l]))
    ∨ ch = js "analysis-result"
  | _ => True
  end.

Definition published (evs : list IOEvent) : Prop :=
  ∃ analysis image, Sent (js "analysis-result") [analysis; image] ∈ evs.

(** The message of the TypeError when there is no display. *)
Definition no_display : jsstring :=
  js "Cannot read properties of undefined (reading 'scaleFactor')".

(** The error of [setupProvider] for a provider without a key. *)
Definition setup_error (p : jsstring) : JsError :=
  if decide (toLowerCase p = js "openai")
  then Error (js "OpenAI API key not configured")
  else if decide (toLowerCase p = js "claude")
  then Error (js "Claude API key not configured")
  else if decide (toLowerCase p = js "perplexity")
  then Error (js "Perplexity API key not configured")
  else Error (js "Unsupported LLM provider: " ++ p).

(** The two fallback payloads, as the texts the service returns. *)
Definition parse_error_payload : jsstring :=
  LLMService.stringify_object (LLMService.fallback (js "JSON parsing error")).

Definition text_only_payload : jsstring :=
  LLMService.stringify_object
    (LLMService.fallback (js "Text-only analysis - image vision not supported")).

(** The message the text-only branch sends to the model. *)
Definition text_only_message : HumanMessage :=
  HumanMessageText (LLMService.getAnalysisPrompt ++ [10; 10] ++
    js "Note: Image analysis not available with current provider. Please provide text-based market analysis.").

Definition tag : jsstring := js "```json".

End Expected.

(** *** The payload of the schema, typed

    The fields the renderer reads, each optional, with the types of the
    schema; [confidence] may be a number or a string.  [conforms data p]:
    the value [data] of [JSON.parse] is an object that carries the payload
    [p] (other properties are allowed).  [present p] is what the page must
    show of [p], in the words of the specification: defaults, then
    truncation to 80 characters, 2 scenarios, 3 targets and 2 levels. *)
Module Payload.
Import JS.

Inductive Scalar := SNum (n : Num) | SStr (s : jsstring).

Record Scenario := mkScenario {
  side : option jsstring;
  entry : option jsstring;
  stop : option jsstring;
  targets : option (list jsstring)
}.

Record Levels := mkLevels {
  support : option (list jsstring);
  resistance : option (list jsstring)
}.

Record t := mk {
  decision : option jsstring;
  confidence : option Scalar;
  reason : option jsstring;
  scenarios : option (list Scenario);
  levels : option Levels
}.

Definition scalar_value (s : Scalar) : Value :=
  match s with SNum n => VNum n | SStr s => VStr s end.

Definition strings_value (l : list jsstring) : Value := VArr (VStr <$> l).

Definition is_scenario (v : Value) (sc : Scenario) : Prop :=
  ∃ f, v = VObj f ∧
    own_property (js "side") f = VStr <$> side sc ∧
    own_property (js "entry") f = VStr <$> entry sc ∧
    own_property (js "stop") f = VStr <$> stop sc ∧
    own_property (js "targets") f = strings_value <$> targets sc.

Definition is_levels (v : Value) (l : Levels) : Prop :=
  ∃ f, v = VObj f ∧
    own_property (js "support") f = strings_value <$> support l ∧
    own_property (js "resistance") f = strings_value <$> resistance l.

Definition conforms (data : Value) (p : t) : Prop :=
  ∃ f, data = VObj f ∧
    own_property (js "decision") f = VStr <$> decision p ∧
    own_property (js "confidence") f = scalar_value <$> confidence p ∧
    own_property (js "reason") f = VStr <$> reason p ∧
    match scenarios p with
    | None => own_property (js "scenarios") f = None
    | Some scs => ∃ vs, own_property (js "scenarios") f = Some (VArr vs) ∧
                        Forall2 is_scenario vs scs
    end ∧
    match levels p with
    | None => own_property (js "levels") f = None
    | Some l => ∃ v, own_property (js "levels") f = Some v ∧ is_levels v l
    end.

(** The text of a field, or [d] when it is absent or empty. *)
Definition or_text (o : option jsstring) (d : jsstring) : jsstring :=
  match o with Some (c :: s) => c :: s | _ => d end.

(** The confidence shown: 0 when absent, zero or empty, else what
    [parseInt] reads at the head of its text, [NaN] when there is no
    integer there. *)
Definition shown_confidence (c : option Scalar) : jsstring :=
  match c with
  | None => js "0"
  | Some (SNum n) =>
    if is_zero n then js "0" else Number_toString (parseInt_string (Num_toString n))
  | Some (SStr []) => js "0"
  | Some (SStr s) => Number_toString (parseInt_string s)
  end.

Definition side_class (s : jsstring) : list jsstring :=
  if decide (toLowerCase s = js "long") then [js "long"]
  else if decide (toLowerCase s = js "short") then [js "short"]
  else [].

(** A row: side, entry, stop and the first three targets, a dash for a
    target that is missing or empty. *)
Definition shown_row (sc : Scenario) : SnapScalpRenderer.Row :=
  let shown := take 3 (default [] (targets sc)) in
  SnapScalpRenderer.mkRow
    (SnapScalpRenderer.row_template
       [ default [] (side sc); default [] (entry sc); default [] (stop sc);
         or_text (shown !! 0%nat) emdash; or_text (shown !! 1%nat) emdash;
         or_text (shown !! 2%nat) emdash ])
    (side_class (default [] (side sc))).

(** The first two levels, separated by a space, or a dash. *)
Definition shown_levels (l : option (list jsstring)) : jsstring :=
  or_text (Some (join (js " ") (take 2 (default [] l)))) emdash.

Definition banner_class (d : jsstring) : jsstring :=
  if decide (toLowerCase d = js "long") then js "long"
  else if decide (toLowerCase d = js "short") then js "short"
  else js "wait".

Definition present (p : t) (d : SnapScalpRenderer.t) : SnapScalpRenderer.t :=
  let dec := or_text (decision p) (js "WAIT") in
  SnapScalpRenderer.mk
    (SnapScalpRenderer.statusLabel d)
    (toUpperCase dec)
    true
    (shown_confidence (confidence p))
    (or_text (Some (take 80 (default [] (reason p)))) emdash)
    [js "decision-banner"; banner_class dec]
    (shown_row <$> take 2 (default [] (scenarios p)))
    (js "S " ++ shown_levels (levels p ≫= support))
    (js "R " ++ shown_levels (levels p ≫= resistance))
    (SnapScalpRenderer.previewImage d).

End Payload.

(** *** Sample configurations *)
Module Sample.
Import JS SnapScalpMain.

Definition region : Region := mkRegion 100 50 640 480.

(** The example response of the specification, without its fence. *)
Definition inner : jsstring :=
  dq "{'decision':'Long','confidence':77,'reason':'breakout','scenarios':[{'side':'Long','entry':'100','stop':'98','targets':['105','110','115','120']}],'levels':{'support':['95'],'resistance':['105','110','120']}}".

(** The same between two line breaks, as it stands inside the fence. *)
Definition fenced_inner : jsstring := [10] ++ inner ++ [10].

Definition response : jsstring := js "```json" ++ fenced_inner ++ js "```".

Definition inner_value : Value := default VNull (JSON.parse inner).

Definition payload : Payload.t :=
  Payload.mk (Some (js "Long")) (Some (Payload.SNum (Num_of_Z 77)))
    (Some (js "breakout"))
    (Some [ Payload.mkScenario (Some (js "Long")) (Some (js "100")) (Some (js "98"))
              (Some [js "105"; js "110"; js "115"; js "120"]) ])
    (Some (Payload.mkLevels (Some [js "95"])
             (Some [js "105"; js "110"; js "120"]))).

(** A valid payload whose reason holds a fence. *)
Definition inner_with_fence : jsstring := dq "{'reason':'a```b'}".

(** A payload whose confidence is not a number. *)
Definition worded_confidence : jsstring := dq "{'confidence':'high'}".

(** Every awaited operation succeeds. *)
Definition env : Env :=
  mkEnv [mkDisplay 2] (Ret [137; 80; 78; 71]) (λ img _, Ret img)
    (λ _, js "iVBORw0KGgo=") (λ _ _, Ret response) (js "09:30:00").

(** The provider refuses the request. *)
Definition env_provider_down : Env :=
  mkEnv [mkDisplay 2] (Ret [137; 80; 78; 71]) (λ img _, Ret img)
    (λ _, js "iVBORw0KGgo=") (λ _ _, Throw (Error (js "401 Unauthorized")))
    (js "09:30:00").

(** The screen cannot be read. *)
Definition env_capture_down : Env :=
  mkEnv [mkDisplay 2] (Throw (Error (js "screen capture denied")))
    (λ img _, Ret img) (λ _, js "iVBORw0KGgo=") (λ _ _, Ret response)
    (js "09:30:00").

(** The application with its window, before the configuration is read. *)
Definition created : World :=
  mkWorld (set_mainWindow (Some MainWindow) constructor) ∅ 0.

(** A key for openai only, no region: the renderer has not set one. *)
Definition configured : World :=
  state_after (loadConfiguration (js "sk-test") [] []) created.

(** No key at all, a region selected. *)
Definition keyless : World :=
  state_after (area_selected (Some region))
    (state_after (loadConfiguration [] [] []) created).

Definition ready : World := state_after (area_selected (Some region)) configured.

Definition running : World := state_after startAnalysis ready.

Definition stopped : World := state_after stopAnalysis running.

(** A service switched to the text-only provider. *)
Definition text_only_service : LLMService.t :=
  state_after
    (LLMService.initialize (js "perplexity") {[ js "perplexity" := js "pplx-test" ]})
    LLMService.constructor.

Definition page : SnapScalpRenderer.t :=
  SnapScalpRenderer.mk (js "Analyzing") [] false [] [] [] [] [] [] None.

End Sample.

(** * Properties *)

Arguments js : simpl never.
Arguments LLMService.fence : simpl never.
Arguments Expected.tag : simpl never.
Arguments Expected.status : simpl never.
Arguments LLMService.setupProvider : simpl never.

(** Case analysis on the comparisons of code units in the goal. *)
Ltac cmp :=
  repeat match goal with
  | |- context [?a =? ?b] => destruct (N.eqb_spec a b); try lia
  | |- context [?a <=? ?b] => destruct (N.leb_spec a b); try lia
  | |- context [?a <? ?b] => destruct (N.ltb_spec a b); try lia
  end.

(** ** The monad *)
Section Monad.

Lemma bind_quiet {S A B} (m : M S A) (f : A → M S B) s a s1 :
  m s = (Ret a, s1, []) → (m ≫= f) s = f a s1.
Proof.
  intros H. unfold mbind, M_bind. rewrite H. by destruct (f a s1) as [[] ?].
Qed.

Lemma try_catch_ret {S A} (m : M S A) h s a s1 t1 :
  m s = (Ret a, s1, t1) → try_catch m h s = (Ret a, s1, t1).
Proof. intros H. unfold try_catch. by rewrite H. Qed.

End Monad.

Tactic Notation "quiet_step" tactic3(tac) :=
  erewrite bind_quiet by tac; cbv beta zeta.

(** ** Strings *)
Section Strings.
Import JS.

Lemma is_ws_cases c :
  is_ws c = true →
  c = 9 ∨ c = 10 ∨ c = 11 ∨ c = 12 ∨ c = 13 ∨ c = 32 ∨ 160 ≤ c.
Proof.
  unfold is_ws. rewrite !orb_true_iff, !andb_true_iff, !N.eqb_eq, !N.leb_le. lia.
Qed.

Lemma trimStart_app s :
  ∃ w, s = w ++ trimStart s ∧ Forall (λ c, is_ws c = true) w.
Proof.
  induction s as [|c s (w & Hs & Hw)]; simpl.
  - by exists [].
  - destruct (is_ws c) eqn:Hc.
    + exists (c :: w). split; [by rewrite Hs at 1|by constructor].
    + by exists [].
Qed.

Lemma trimStart_head s c t : trimStart s = c :: t → is_ws c = false.
Proof.
  induction s as [|a s IH]; simpl; [done|].
  destruct (is_ws a) eqn:Ha; [done|]. by intros [= -> _].
Qed.

Lemma trimEnd_app s :
  ∃ w, s = trimEnd s ++ w ∧ Forall (λ c, is_ws c = true) w.
Proof.
  unfold trimEnd. destruct (trimStart_app (reverse s)) as (w & Hs & Hw).
  exists (reverse w). split.
  - rewrite <- reverse_app, <- Hs. by rewrite reverse_involutive.
  - by apply Forall_reverse.
Qed.

Lemma trimEnd_last s c : last (trimEnd s) = Some c → is_ws c = false.
Proof.
  unfold trimEnd. rewrite last_reverse.
  destruct (trimStart (reverse s)) as [|a t] eqn:Ht; [done|].
  intros [= ->]. by eapply trimStart_head.
Qed.

Lemma trimEnd_id s x : last s = Some x → is_ws x = false → trimEnd s = s.
Proof.
  intros Hl Hx. destruct s as [|a t _] using rev_ind; [done|].
  rewrite last_snoc in Hl. injection Hl as ->.
  unfold trimEnd. rewrite reverse_snoc. simpl. rewrite Hx.
  by rewrite reverse_cons, reverse_involutive.
Qed.

(** A text that starts and ends with a character that is not white space
    is its own trimmed form. *)
Lemma trim_id s c t x :
  s = c :: t → is_ws c = false → last s = Some x → is_ws x = false → trim s = s.
Proof.
  intros -> Hc Hl Hx. unfold trim. simpl. rewrite Hc. by eapply trimEnd_id.
Qed.

(** A text around its trimmed form. *)
Lemma trim_decompose s c0 t0 :
  trim s = c0 :: t0 →
  ∃ w1 w2 x, s = w1 ++ trim s ++ w2 ∧
    Forall (λ c, is_ws c = true) w1 ∧ Forall (λ c, is_ws c = true) w2 ∧
    is_ws c0 = false ∧ last (trim s) = Some x ∧ is_ws x = false.
Proof.
  intros Ht. destruct (trimStart_app s) as (w1 & Hs1 & Hw1).
  destruct (trimEnd_app (trimStart s)) as (w2 & Hs2 & Hw2).
  fold (trim s) in Hs2.
  assert (is_Some (last (trim s))) as [x Hx] by (rewrite Ht; apply last_is_Some; done).
  exists w1, w2, x. split; [by rewrite <- Hs2|]. split; [done|]. split; [done|].
  split; [|split; [done|by eapply trimEnd_last]].
  rewrite Ht in Hs2. destruct (trimStart s) as [|a u] eqn:Hu; [done|].
  injection Hs2 as -> _. by eapply trimStart_head.
Qed.

Lemma startsWith_app_false p a b :
  startsWith p (a ++ b) = false → startsWith p a = false.
Proof.
  revert a. induction p as [|c p IH]; intros [|d a]; cbn [startsWith app]; try done.
  intros [H|H]%andb_false_iff; [by rewrite H|]. by rewrite (IH _ H), andb_false_r.
Qed.

Lemma includes_cons p a s :
  includes p (a :: s) = startsWith p (a :: s) || includes p s.
Proof. done. Qed.

Lemma includes_app_l p a b : includes p (a ++ b) = false → includes p b = false.
Proof.
  induction a as [|c a IH]; [done|]. rewrite <- app_comm_cons. cbn [includes].
  intros [_ H]%orb_false_iff. auto.
Qed.

Lemma includes_app_r p a b : includes p (a ++ b) = false → includes p a = false.
Proof.
  induction a as [|c a IH].
  - rewrite app_nil_l. destruct b as [|n b]; cbn [includes]; rewrite ?orb_false_r.
    + done.
    + intros [H _]%orb_false_iff. by apply (startsWith_app_false p [] (n :: b)).
  - rewrite <- app_comm_cons. cbn [includes]. intros [Hs Hi]%orb_false_iff.
    by rewrite (startsWith_app_false _ (c :: a) b Hs), IH.
Qed.

Lemma slice_take {A} (n : nat) (l : list A) : slice 0 (Z.of_nat n) l = take n l.
Proof.
  unfold slice, slice_index.
  change (0 <? 0)%Z with false. destruct (Z.ltb_spec (Z.of_nat n) 0); [lia|]. cbn iota.
  rewrite (Z.min_l 0) by lia. change (Z.to_nat 0) with 0%nat. rewrite drop_0, Z.sub_0_r.
  rewrite Z.max_l by lia.
  destruct (Z.min_spec (Z.of_nat n) (Z.of_nat (length l))) as [[? ->]|[? ->]].
  - by rewrite Nat2Z.id.
  - rewrite Nat2Z.id, !take_ge; [done|lia|done].
Qed.

Lemma lower_idemp c : lower (lower c) = lower c.
Proof.
  unfold lower. destruct ((65 <=? c) && (c <=? 90)) eqn:E; [|by rewrite E].
  apply andb_true_iff in E as [E1 E2]. apply N.leb_le in E1, E2.
  assert ((c + 32 <=? 90) = false) as -> by (apply N.leb_gt; lia).
  by rewrite andb_false_r.
Qed.

Lemma toLowerCase_idemp s : toLowerCase (toLowerCase s) = toLowerCase s.
Proof.
  unfold toLowerCase. rewrite <- list_fmap_compose.
  apply list_fmap_ext. intros _ c _. apply lower_idemp.
Qed.

End Strings.

(** ** The recogniser of [JSON.parse] *)
Section Json.
Import JS JSON.

Lemma run_failed q text : mode q = MErr → accept (run q text) = None.
Proof.
  revert q. induction text as [|c text IH]; intros q Hq; simpl.
  - unfold accept. rewrite Hq. by destruct (stack q).
  - apply IH. unfold step. by rewrite Hq.
Qed.

Lemma run_app q s1 s2 : run q (s1 ++ s2) = run (run q s1) s2.
Proof. apply foldl_app. Qed.

(** A white space after the text does not make it valid. *)
Lemma accept_step_ws q c v :
  is_ws c = true → accept (step q c) = Some v → accept q = Some v.
Proof.
  intros Hws. destruct q as [st m].
  apply is_ws_cases in Hws.
  destruct Hws as [->|[->|[->|[->|[->|[->|Hc]]]]]].
  1-6: destruct m as [| | | | | | | | |p a|p| |]; try destruct p;
    try (destruct st as [|[|? []] ?]); simpl; try done.
  all: unfold step; simpl.
  all: destruct m as [| | | | | | | | |p a|p| |]; try destruct p; simpl;
    unfold step_value, step_after, step_number, is_json_ws, escape, hex_value,
      is_digit; simpl; cmp; simpl; try done.
  all: try (destruct st as [|[|? []] ?]; simpl; cmp; done).
Qed.

(** No valid text ends with a backtick. *)
Lemma accept_step_backtick q : accept (step q 96) = None.
Proof.
  destruct q as [st m].
  destruct m as [| | | | | | | | |p a|p| |]; try destruct p;
    try (destruct st as [|[|? []] ?]); simpl; done.
Qed.

Lemma accept_run_ws q w v :
  Forall (λ c, is_ws c = true) w → accept (run q w) = Some v → accept q = Some v.
Proof.
  intros Hw. revert q. induction Hw as [|c w Hc _ IH]; intros q; simpl; [done|].
  intros H. apply IH in H. by apply accept_step_ws in H.
Qed.

Lemma step_initial_ws c :
  is_ws c = true → step initial c = initial ∨ mode (step initial c) = MErr.
Proof.
  intros Hws. apply is_ws_cases in Hws.
  destruct Hws as [->|[->|[->|[->|[->|[->|Hc]]]]]]; [by (left + right)..|].
  right. unfold step, step_value, is_json_ws, is_digit; simpl. cmp; done.
Qed.

Lemma parse_trimStart s v : parse s = Some v → parse (trimStart s) = Some v.
Proof.
  unfold parse. induction s as [|c s IH]; simpl; [done|].
  destruct (is_ws c) eqn:Hc; [|done].
  destruct (step_initial_ws c Hc) as [->|He]; [done|].
  intros H. by rewrite (run_failed _ s He) in H.
Qed.

Lemma parse_trimEnd s v : parse s = Some v → parse (trimEnd s) = Some v.
Proof.
  unfold parse. destruct (trimEnd_app s) as (w & Hs & Hw).
  rewrite Hs at 1. rewrite run_app. by apply accept_run_ws.
Qed.

(** [JSON.parse] reads a text and its trimmed form alike. *)
Lemma parse_trim s v : parse s = Some v → parse (trim s) = Some v.
Proof. intros H. unfold trim. by apply parse_trimEnd, parse_trimStart. Qed.

Lemma parse_head s v :
  parse s = Some v → ∃ c t, s = c :: t ∧ c ≠ 96 ∧ c ≠ 106.
Proof.
  destruct s as [|c t]; [done|]. intros H. exists c, t. split; [done|].
  split; intros ->; unfold parse in H; simpl in H; by rewrite run_failed in H.
Qed.

Lemma parse_last s v : parse s = Some v → ∃ c, last s = Some c ∧ c ≠ 96.
Proof.
  destruct s as [|a t _] using rev_ind; [done|]. intros H.
  exists a. rewrite last_snoc. split; [done|]. intros ->.
  unfold parse in H. rewrite run_app in H. simpl in H.
  by rewrite accept_step_backtick in H.
Qed.

(** What the validity of a text gives the matcher of the fence. *)
Lemma valid_inner inner v :
  parse inner = Some v →
  ∃ w1 w2 c0 t0 x, inner = w1 ++ trim inner ++ w2 ∧ trim inner = c0 :: t0 ∧
    Forall (λ c, is_ws c = true) w1 ∧ Forall (λ c, is_ws c = true) w2 ∧
    is_ws c0 = false ∧ last (trim inner) = Some x ∧ is_ws x = false ∧ x ≠ 96 ∧
    parse (trim inner) = Some v.
Proof.
  intros Hp. pose proof (parse_trim _ _ Hp) as Ht.
  destruct (parse_head _ _ Ht) as (c0 & t0 & Hc & _).
  destruct (parse_last _ _ Ht) as (x & Hx & Hx96).
  destruct (trim_decompose _ _ _ Hc) as (w1 & w2 & x' & Hs & Hw1 & Hw2 & Hc0 & Hl & Hxw).
  rewrite Hx in Hl. injection Hl as <-.
  by exists w1, w2, c0, t0, x.
Qed.

End Json.

(** ** The response normaliser *)
Section Normalizer.
Import JS LLMService Expected.

Lemma fence_eq : fence = [96; 96; 96].
Proof. reflexivity. Qed.

Lemma tag_eq : tag = [96; 96; 96; 106; 115; 111; 110].
Proof. reflexivity. Qed.

Lemma lazy_group_eq s :
  lazy_group s =
    if ws_fence s then Some []
    else match s with c :: s' => (c ::.) <$> lazy_group s' | [] => None end.
Proof. by destruct s. Qed.

Lemma ws_fence_ws w r :
  Forall (λ c, is_ws c = true) w → ws_fence (w ++ fence ++ r) = true.
Proof.
  induction 1 as [|c w Hc _ IH]; [by rewrite fence_eq|].
  rewrite <- app_comm_cons. cbn [ws_fence]. by rewrite Hc, IH.
Qed.

Lemma startsWith_fence_app t x r :
  last t = Some x → x ≠ 96 → startsWith fence t = false →
  startsWith fence (t ++ r) = false.
Proof.
  rewrite fence_eq.
  intros Hl Hx. destruct t as [|a [|b [|c t]]]; cbn [startsWith app last] in *; try done.
  - injection Hl as ->. cmp; done.
  - injection Hl as ->. cmp; done.
Qed.

(** Inside a text with no fence, that ends with neither a white space nor
    a backtick, the closing part of the expression does not match. *)
Lemma ws_fence_core t x r :
  last t = Some x → is_ws x = false → x ≠ 96 → includes fence t = false →
  ws_fence (t ++ r) = false.
Proof.
  intros Hl Hws Hx. induction t as [|c t IH]; [done|].
  intros Hinc. cbn [includes] in Hinc. apply orb_false_iff in Hinc as [Hs Hinc].
  pose proof (startsWith_fence_app (c :: t) x r Hl Hx Hs) as Hs'.
  rewrite <- app_comm_cons in *.
  cbn [ws_fence]. rewrite Hs', orb_false_r.
  destruct t as [|b t].
  - injection Hl as ->. by rewrite Hws.
  - rewrite IH; [by rewrite andb_false_r|done|done].
Qed.

(** The lazy group takes such a text whole. *)
Lemma lazy_group_core t x w r :
  last t = Some x → is_ws x = false → x ≠ 96 → includes fence t = false →
  Forall (λ c, is_ws c = true) w →
  lazy_group (t ++ w ++ fence ++ r) = Some t.
Proof.
  intros Hl Hws Hx Hinc Hw. induction t as [|c t IH]; [done|].
  rewrite lazy_group_eq, (ws_fence_core _ x _ Hl Hws Hx Hinc).
  cbn [includes] in Hinc. apply orb_false_iff in Hinc as [Hs Hinc].
  rewrite <- app_comm_cons.
  destruct t as [|b t].
  - rewrite app_nil_l, lazy_group_eq, ws_fence_ws by done. done.
  - rewrite IH; done.
Qed.

Lemma after_tag_ws w c s g :
  Forall (λ c, is_ws c = true) w → is_ws c = false →
  lazy_group (c :: s) = Some g → after_tag (w ++ c :: s) = Some g.
Proof.
  intros Hw Hc Hg. induction Hw as [|a w Ha _ IH].
  - rewrite app_nil_l. cbn [after_tag]. by rewrite Hc.
  - rewrite <- app_comm_cons. cbn [after_tag]. by rewrite Ha, IH.
Qed.

Lemma after_tag_inner inner v :
  JSON.parse inner = Some v → includes fence inner = false →
  after_tag (inner ++ fence) = Some (trim inner).
Proof.
  intros Hp Hinc.
  destruct (valid_inner _ _ Hp)
    as (w1 & w2 & c0 & t0 & x & Hs & Hc & Hw1 & Hw2 & Hc0 & Hl & Hx & Hx96 & _).
  assert (includes fence (trim inner) = false) as Hcore.
  { rewrite Hs in Hinc. apply includes_app_l in Hinc.
    by apply includes_app_r in Hinc. }
  rewrite Hs at 1. rewrite <- !app_assoc.
  rewrite Hc at 1. rewrite <- app_comm_cons.
  apply after_tag_ws; [done|done|].
  rewrite app_comm_cons, <- Hc.
  rewrite <- (app_nil_r fence).
  by apply (lazy_group_core _ x).
Qed.

Lemma jsonBlockMatch_here s g : match_here s = Some g → jsonBlockMatch s = Some g.
Proof. destruct s; cbn [jsonBlockMatch]; by intros ->. Qed.

Lemma jsonBlockMatch_none s : includes tag s = false → jsonBlockMatch s = None.
Proof.
  induction s as [|c s IH]; cbn [includes jsonBlockMatch]; unfold match_here; fold tag.
  - rewrite orb_false_r. by intros ->.
  - intros [-> Hi]%orb_false_iff. auto.
Qed.

Lemma includes_tag_fence t :
  includes fence t = false → includes tag (t ++ fence) = false.
Proof.
  rewrite tag_eq, fence_eq.
  induction t as [|c t IH]; [done|].
  cbn [includes]. intros [Hs Hi]%orb_false_iff.
  rewrite <- app_comm_cons. cbn [includes]. rewrite (IH Hi), orb_false_r.
  clear IH Hi. destruct t as [|a [|b t]]; cbn [startsWith app] in *.
  - cmp; done.
  - cmp; done.
  - apply andb_false_iff in Hs as [Hs|Hs]; [by rewrite Hs|].
    apply andb_false_iff in Hs as [Hs|Hs]; [by rewrite Hs, andb_false_r|].
    apply andb_false_iff in Hs as [Hs|Hs]; [by rewrite Hs, !andb_false_r|done].
Qed.

Lemma slice_fenced inner : slice 3 (-3) (fence ++ inner ++ fence) = inner.
Proof.
  unfold slice, slice_index.
  change (3 <? 0)%Z with false. change (-3 <? 0)%Z with true. cbn iota.
  rewrite !length_app, fence_eq. cbn [length].
  rewrite Z.min_l, Z.max_l, Z.max_l by lia.
  change (Z.to_nat 3) with 3%nat. cbn [drop app].
  replace (Z.to_nat _) with (length inner) by lia.
  by rewrite drop_0, take_app_length.
Qed.

Lemma extract_eq content :
  content ≠ [] →
  extractJsonFromResponse content =
    match JSON.parse (cleaned content) with
    | Some _ => cleaned content
    | None => parse_error_payload
    end.
Proof. by destruct content. Qed.

Lemma cleaned_tagged inner v :
  JSON.parse inner = Some v → includes fence inner = false →
  cleaned (tag ++ inner ++ fence) = trim inner.
Proof.
  intros Hp Hinc.
  destruct (valid_inner _ _ Hp)
    as (w1 & w2 & c0 & t0 & x & Hs & Hc & Hw1 & Hw2 & Hc0 & Hl & Hx & Hx96 & Ht).
  assert (trim (tag ++ inner ++ fence) = tag ++ inner ++ fence) as Htrim.
  { rewrite tag_eq. eapply (trim_id _ _ _ 96); [reflexivity|done| |done].
    by rewrite !app_assoc, fence_eq, last_app. }
  unfold cleaned. rewrite Htrim.
  rewrite (jsonBlockMatch_here _ (trim inner)).
  2:{ unfold match_here. fold tag. rewrite tag_eq. cbn [app startsWith drop].
      rewrite !N.eqb_refl. cbn [andb]. by eapply after_tag_inner. }
  by rewrite (trim_id (trim inner) c0 t0 x).
Qed.

Lemma cleaned_untagged inner v :
  JSON.parse inner = Some v → includes fence inner = false →
  cleaned (fence ++ inner ++ fence) = trim inner.
Proof.
  intros Hp Hinc.
  destruct (parse_head _ _ Hp) as (c & t & -> & Hc96 & Hc106).
  assert (trim (fence ++ (c :: t) ++ fence) = fence ++ (c :: t) ++ fence) as Htrim.
  { rewrite fence_eq. eapply (trim_id _ _ _ 96); [reflexivity|done| |done].
    by rewrite !app_assoc, last_app. }
  unfold cleaned. rewrite Htrim.
  rewrite jsonBlockMatch_none.
  2:{ pose proof (includes_tag_fence _ Hinc) as Hi.
      remember ((c :: t) ++ fence) as r eqn:Hr.
      rewrite fence_eq. cbn [app]. rewrite !includes_cons, Hi, orb_false_r.
      subst r. rewrite tag_eq. cbn [app startsWith]. cmp; done. }
  assert (startsWith fence (fence ++ (c :: t) ++ fence) = true) as ->
    by (by rewrite fence_eq).
  assert (endsWith fence (fence ++ (c :: t) ++ fence) = true) as ->.
  { unfold endsWith. rewrite !reverse_app. by rewrite fence_eq. }
  cbn [andb]. by rewrite slice_fenced.
Qed.


(** A valid text with no object at its top level is returned as it is. *)
Lemma scalar_text_is_kept :
  JSON.parse (js "42") = Some (VNum (Num_of_Z 42)) ∧
  extractJsonFromResponse (js "42") = js "42".
Proof. by vm_compute. Qed.





End Normalizer.

(** ** The analysis loop *)
Section Loop.
Import JS SnapScalpMain Expected.

Lemma startAnalysis_run w :
  startAnalysis w =
    if hasApiKey (config (self w)) && bool_decide (is_Some (captureArea (self w)))
    then (Ret true, started w, [])
    else (Throw (start_error w), w, []).
Proof.
  unfold startAnalysis, start_error, started.
  unfold mbind, M_bind, this; simpl.
  destruct (hasApiKey _) eqn:Hk; simpl; [|done].
  by destruct (captureArea (self w)) as [a|] eqn:Ha.
Qed.



Lemma cycle_idle env l w :
  isAnalyzing (self w) = false → cycle env l w = (Ret tt, w, []).
Proof. intros H. unfold cycle, mbind, M_bind, this. by rewrite H. Qed.

Lemma fire_idle env id w :
  isAnalyzing (self w) = false →
  fire env id w = (Ret tt, spent id w, []) ∧ self (spent id w) = self w.
Proof.
  intros H. unfold fire, spent, mbind, M_bind, this.
  destruct (timers w !! id) as [[[] d cb]|]; simpl; [| |done].
  - destruct cb; simpl; by rewrite cycle_idle.
  - destruct cb; simpl; by rewrite cycle_idle.
Qed.

Lemma setupProvider_quiet s :
  ∃ r s', LLMService.setupProvider s = (r, s', []).
Proof.
  unfold LLMService.setupProvider, mbind, M_bind, this, assign, throw. simpl.
  repeat case_decide; repeat case_match; by eexists _, _.
Qed.

Lemma switchProvider_quiet p s :
  ∃ r s', LLMService.switchProvider p s = (r, s', []).
Proof.
  unfold LLMService.switchProvider, mbind, M_bind, this, assign, mret, M_ret.
  case_decide; [|by eexists _, _].
  destruct (setupProvider_quiet (LLMService.set_currentProvider p s)) as (r & s' & ->).
  by eexists _, _.
Qed.

Lemma switch_llm_provider_quiet p w :
  ∃ r w', switch_llm_provider p w = (r, w', []) ∧
    isAnalyzing (self w') = isAnalyzing (self w).
Proof.
  unfold switch_llm_provider, try_catch, on_llmService, on_member.
  unfold mbind at 1 2 3, M_bind, this, assign, mret, M_ret. cbv beta iota.
  match goal with |- context [LLMService.switchProvider ?q ?s] =>
    destruct (switchProvider_quiet q s) as (r & s' & ->) end.
  destruct r; by eexists _, _.
Qed.

(** While the loop is not started again, no action has an outward
    effect and the flag stays unset. *)
Lemma idle_is_quiet l w :
  isAnalyzing (self w) = false → Start ∉ l →
  (perform_all l w).2 = [] ∧ isAnalyzing (self (perform_all l w).1) = false.
Proof.
  revert w. induction l as [|a l IH]; intros w Hidle Hl; [done|].
  apply not_elem_of_cons in Hl as [Ha Hl].
  assert (∃ w1, perform a w = (w1, []) ∧ isAnalyzing (self w1) = false)
    as (w1 & Hp & Hidle1).
  { destruct a as [env id| | |p|area]; [| done | | |].
    - destruct (fire_idle env id w Hidle) as [Hf Hs].
      eexists. unfold perform, outcome. rewrite Hf. split; [done|]. simpl. by rewrite Hs.
    - unfold perform, outcome, stopAnalysis, mbind, M_bind, this, assign,
        clearInterval.
      simpl. destruct (analysisInterval (self w)); simpl; by eexists.
    - destruct (switch_llm_provider_quiet p w) as (r & w' & Hs & Hflag).
      exists w'. unfold perform, outcome. rewrite Hs. split; [done|]. by rewrite Hflag.
    - by eexists. }
  cbn [perform_all]. rewrite Hp.
  destruct (IH w1 Hidle1 Hl) as [He Hf].
  destruct (perform_all l w1) as [w2 e2]. by simpl in *; subst.
Qed.

(** C6. A callback that fires while the loop is not running, probe or
    recurring, does nothing at all: it returns with no effect, so no
    status, no capture, no provider call and no result; the application
    object is as before and only the spent timeout leaves the table. This
    holds for every callback that fires between a stop and the next
    start: [stopAnalysis] always leaves the loop not running, and then,
    whatever timers fire and whatever else the window asks for, nothing
    reaches the outside. *)
Theorem stopped_callback_skips (env : Env) (id : N) (w : World) :
  isAnalyzing (self w) = false →
  fire env id w = (Ret tt, spent id w, []) ∧
  self (spent id w) = self w ∧
  (∀ l, Start ∉ l →
     (perform_all l w).2 = [] ∧ isAnalyzing (self (perform_all l w).1) = false) ∧
  (∀ w0, isAnalyzing (self (state_after stopAnalysis w0)) = false).
Proof.
  intros H. destruct (fire_idle env id w H) as [Hf Hs].
  split; [done|]. split; [done|]. split; [intros l Hl; by apply idle_is_quiet|].
  intros w0. unfold state_after, stopAnalysis, mbind, M_bind, this, assign,
    clearInterval. simpl. by destruct (analysisInterval (self w0)).
Qed.

Lemma stopped_callback_skips_witness :
  timers Sample.stopped !! 0 = Some (mkTimer false 2000 ImmediateAnalysis) ∧
  fire Sample.env 0 Sample.stopped = (Ret tt, spent 0 Sample.stopped, []) ∧
  (perform_all [Switch (js "claude"); Fire Sample.env 0; Fire Sample.env 1]
     Sample.stopped).2 = [].
Proof.
  split; [reflexivity|].
  destruct (stopped_callback_skips Sample.env 0 Sample.stopped) as (H1 & _ & H2 & _);
    [reflexivity|].
  split; [exact H1|].
  apply H2. rewrite !not_elem_of_cons. repeat split; try done. apply not_elem_of_nil.
Defined.

Lemma captureScreenshot_run env w :
  match captureArea (self w) with
  | None => captureScreenshot env w = (Throw (Error (js "No capture area set")), w, [])
  | Some area =>
    ∃ c evs, captureScreenshot env w = (Ret c, w, evs) ∧ Forall io_only evs ∧
      match screenshot env, getAllDisplays env with
      | Throw e, _ => c = CaptureFailure (message e)
      | Ret img, [] => c = CaptureFailure no_display
      | Ret img, d :: _ =>
        match extract env img (crop_area area (scale_of d)) with
        | Throw e => c = CaptureFailure (message e)
        | Ret buf => c = CaptureSuccess (base64 env buf) (crop_area area (scale_of d))
        end
      end
  end.
Proof.
  unfold captureScreenshot, mbind, M_bind, try_catch, this, emit, await, throw, mret, M_ret.
  destruct (captureArea (self w)) as [area|]; simpl; [|done].
  destruct (screenshot env) as [img|e] eqn:Hs; simpl.
  2:{ eexists _, _. split; [done|]. split; [by repeat constructor|done]. }
  destruct (getAllDisplays env) as [|d ?]; simpl.
  { eexists _, _. split; [done|]. split; [by repeat constructor|done]. }
  destruct (extract env img _) as [buf|e] eqn:He; simpl.
  - eexists _, _. split; [done|]. split; [by repeat constructor|done].
  - eexists _, _. split; [done|]. split; [by repeat constructor|done].
Qed.

(** C8. With no region, [captureScreenshot] throws. With a region it
    never throws and leaves the world as it is: when the screen capture
    or the crop fails, or no display is found, it returns the failure
    result with the message of the error; otherwise the cropped image. *)
Theorem capture_boundary (env : Env) (w : World) :
  (captureArea (self w) = None →
     captureScreenshot env w = (Throw (Error (js "No capture area set")), w, [])) ∧
  (∀ area, captureArea (self w) = Some area →
     ∃ c evs, captureScreenshot env w = (Ret c, w, evs) ∧
       (∀ e, screenshot env = Throw e → c = CaptureFailure (message e)) ∧
       (∀ img, screenshot env = Ret img → getAllDisplays env = [] →
          c = CaptureFailure no_display) ∧
       (∀ img d ds e, screenshot env = Ret img → getAllDisplays env = d :: ds →
          extract env img (crop_area area (scale_of d)) = Throw e →
          c = CaptureFailure (message e)) ∧
       (∀ img d ds buf, screenshot env = Ret img → getAllDisplays env = d :: ds →
          extract env img (crop_area area (scale_of d)) = Ret buf →
          c = CaptureSuccess (base64 env buf) (crop_area area (scale_of d)))).
Proof.
  pose proof (captureScreenshot_run env w) as H. split.
  - intros Ha. by rewrite Ha in H.
  - intros area Ha. rewrite Ha in H. destruct H as (c & evs & Hrun & _ & Hc).
    exists c, evs. split; [done|]. repeat split.
    + intros e He. by rewrite He in Hc.
    + intros img Hs Hd. by rewrite Hs, Hd in Hc.
    + intros img d ds e Hs Hd He. by rewrite Hs, Hd, He in Hc.
    + intros img d ds buf Hs Hd He. by rewrite Hs, Hd, He in Hc.
Qed.

Lemma capture_boundary_witness :
  captureScreenshot Sample.env Sample.created
    = (Throw (Error (js "No capture area set")), Sample.created, []) ∧
  ∃ evs, captureScreenshot Sample.env_capture_down Sample.ready
    = (Ret (CaptureFailure (js "screen capture denied")), Sample.ready, evs).
Proof.
  split.
  - apply (capture_boundary Sample.env Sample.created). reflexivity.
  - destruct (capture_boundary Sample.env_capture_down Sample.ready) as [_ H].
    destruct (H Sample.region eq_refl) as (c & evs & Hrun & Hfail & _).
    exists evs. rewrite Hrun. by rewrite (Hfail _ eq_refl).
Defined.

Lemma set_llmService_id w :
  set_self (set_llmService (llmService (self w))) w = w.
Proof. by destruct w as [[] ? ?]. Qed.

Lemma llm_analyzeChart_frame env img s :
  ∃ r evs, LLMService.analyzeChart env img s = (r, s, evs) ∧ Forall io_only evs.
Proof.
  unfold LLMService.analyzeChart, mbind, M_bind, try_catch, this, emit, await,
    throw, mret, M_ret.
  destruct (LLMService.model s) as [m|]; simpl; [|by eexists _, _].
  destruct (_ || _); simpl.
  - destruct (invoke env m _); simpl; eexists _, _; (split; [done|by repeat constructor]).
  - destruct (invoke env m _); simpl; eexists _, _; (split; [done|by repeat constructor]).
Qed.

Lemma analyzeChart_frame env img w :
  ∃ r evs, analyzeChart env img w = (r, w, evs) ∧ Forall io_only evs.
Proof.
  unfold analyzeChart, try_catch, on_llmService, on_member, throw.
  destruct (llm_analyzeChart_frame env img (llmService (self w))) as (r & evs & -> & Hev).
  rewrite set_llmService_id.
  destruct r; eexists _, _; (split; [done|]); by rewrite ?app_nil_r.
Qed.

Lemma send_run ch args w :
  send ch args w =
    (Ret tt, w, match mainWindow (self w) with Some _ => [Sent ch args] | None => [] end).
Proof. unfold send, mbind, M_bind, this. simpl. by destruct (mainWindow (self w)). Qed.

Lemma io_only_generic l evs : Forall io_only evs → Forall (generic l) evs.
Proof. intros H. eapply Forall_impl; [done|]. by intros []. Qed.

Ltac generic_events :=
  repeat match goal with
  | |- Forall _ [] => constructor
  | |- Forall _ (_ :: _) => constructor; [simpl; by auto 10|]
  | |- Forall _ (_ ++ _) => apply Forall_app; split
  | |- Forall (generic _) _ => by apply io_only_generic
  end.

(** A cycle of a running loop: it returns, the world is as before, and
    what it sends is generic; a cycle that publishes no result ends with
    one of the two failure statuses. *)
Lemma cycle_run env l w :
  isAnalyzing (self w) = true →
  ∃ evs, cycle env l w = (Ret tt, w, evs) ∧ Forall (generic l) evs ∧
    (published evs ∨ mainWindow (self w) = None ∨
     last evs = Some (Sent status [capture_failed l]) ∨
     last evs = Some (Sent status [analysis_error l])).
Proof.
  intros Hrun. unfold cycle, mbind, M_bind, try_catch, this. rewrite Hrun. cbn [negb].
  fold status. rewrite !send_run.
  pose proof (captureScreenshot_run env w) as Hc.
  destruct (mainWindow (self w)) as [win|] eqn:Hwin.
  - destruct (captureArea (self w)) as [area|].
    + destruct Hc as (c & evs & -> & Hev & _).
      destruct c as [image crop|err].
      * rewrite !send_run, Hwin.
        destruct (analyzeChart_frame env image w) as (r & evs' & -> & Hev').
        destruct r as [analysis|e].
        -- rewrite !send_run, Hwin. eexists. split; [done|]. split.
           ++ generic_events.
           ++ left. exists analysis, image. set_solver.
        -- rewrite !send_run, Hwin. eexists. split; [done|]. split.
           ++ generic_events.
           ++ do 3 right. by rewrite !app_assoc, last_snoc.
      * rewrite !send_run, Hwin. eexists. split; [done|]. split.
        -- generic_events.
        -- do 2 right; left. by rewrite !app_assoc, last_snoc.
    + rewrite Hc, !send_run, Hwin. eexists. split; [done|]. split.
      * generic_events.
      * by do 3 right.
  - destruct (captureArea (self w)) as [area|].
    + destruct Hc as (c & evs & -> & Hev & _).
      destruct c as [image crop|err].
      * rewrite !send_run, Hwin.
        destruct (analyzeChart_frame env image w) as (r & evs' & -> & Hev').
        destruct r as [analysis|e]; rewrite !send_run, Hwin;
          (eexists; split; [done|]); (split; [|by right; left]).
        all: generic_events.
      * rewrite !send_run, Hwin. eexists; split; [done|]; (split; [|by right; left]).
        generic_events.
    + rewrite Hc, !send_run, Hwin. eexists. split; [done|].
      split; [by repeat constructor|by right; left].
Qed.

(** C5. A timer that fires on a running loop, probe or recurring, never
    throws, whatever the awaited operations do. The application object is
    as before (the flag is still set, the interval id is kept) and every
    recurring timer is still scheduled. All that reaches the window is
    generic: a status with one of the fixed texts of the callback, or a
    result. A cycle that publishes no result ends, when there is a window,
    with the status of a failed capture or of a failed analysis. *)
Theorem cycle_errors_contained (env : Env) (id : N) (tm : Timer) (w : World) :
  timers w !! id = Some tm → isAnalyzing (self w) = true →
  ∃ evs, fire env id w = (Ret tt, spent id w, evs) ∧
    self (spent id w) = self w ∧
    (∀ j tj, timers w !! j = Some tj → repeat tj = true →
       timers (spent id w) !! j = Some tj) ∧
    Forall (generic (labels_of env (callback tm))) evs ∧
    (published evs ∨ mainWindow (self w) = None ∨
     last evs = Some (Sent status [capture_failed (labels_of env (callback tm))]) ∨
     last evs = Some (Sent status [analysis_error (labels_of env (callback tm))])).
Proof.
  intros Htm Hrun. set (l := labels_of env (callback tm)).
  assert (self (spent id w) = self w) as Hself.
  { unfold spent. rewrite Htm. by destruct (repeat tm). }
  assert (isAnalyzing (self (spent id w)) = true) as Hrun' by (by rewrite Hself).
  destruct (cycle_run env l _ Hrun') as (evs & Hc & Hg & Hlast).
  exists evs. split; [|split; [done|split; [|split; [done|by rewrite <- Hself]]]].
  - unfold fire, mbind, M_bind, this. rewrite Htm.
    unfold spent in Hc |- *. rewrite Htm in Hc |- *.
    assert (run_callback env (callback tm) = cycle env l) as ->
      by (by destruct (callback tm)).
    destruct (repeat tm); simpl; by rewrite Hc.
  - intros j tj Hj Hrep. unfold spent. rewrite Htm.
    destruct (repeat tm) eqn:Hr; [done|]. simpl.
    rewrite lookup_delete_ne; [done|]. intros <-. congruence.
Qed.

Lemma cycle_errors_contained_witness :
  fire Sample.env_provider_down 1 Sample.running
    = (Ret tt, Sample.running,
       [ Sent status [js "Capturing"]; Screenshot;
         SharpExtract [137; 80; 78; 71] (mkCropArea 200 100 1280 960);
         Sent status [js "Analyzing"];
         Invoke (ChatOpenAI (mkModelOptions (js "sk-test") (js "gpt-5-chat-latest")
                               (1 # 10) 400 None))
           [HumanMessageParts
              [ TextPart LLMService.getAnalysisPrompt;
                ImageUrlPart (js "data:image/png;base64,iVBORw0KGgo=") ]];
         Sent status [js "Analysis error"] ]) ∧
  isAnalyzing (self Sample.running) = true ∧
  timers Sample.running !! 1 = Some (mkTimer true 30000 AnalysisLoop).
Proof.
  destruct (cycle_errors_contained Sample.env_provider_down 1
              (mkTimer true 30000 AnalysisLoop) Sample.running)
    as (evs & Hfire & _); [reflexivity|reflexivity|].
  split; [|split; reflexivity].
  rewrite Hfire. by vm_compute.
Defined.

End Loop.

(** ** The provider service *)
Section Service.
Import JS LLMService Expected.

Lemma setupProvider_absent s :
  absent (apiKeys s !! toLowerCase (currentProvider s)) →
  setupProvider s = (Throw (setup_error (currentProvider s)), s, []).
Proof.
  intros Hk. unfold setupProvider, setup_error, mbind, M_bind, this. simpl.
  repeat case_decide; try done.
  all: match goal with H : toLowerCase _ = _ |- _ => rewrite H in Hk end.
  all: by destruct Hk as [-> | ->].
Qed.

Lemma switchProvider_same s :
  switchProvider (currentProvider s) s = (Ret tt, s, []).
Proof. unfold switchProvider, mbind, M_bind, this. simpl. by rewrite decide_False by auto. Qed.

Lemma switchProvider_absent id s :
  id ≠ currentProvider s → absent (apiKeys s !! toLowerCase id) →
  switchProvider id s = (Throw (setup_error id), set_currentProvider id s, []).
Proof.
  intros Hne Hk. unfold switchProvider, mbind, M_bind, this, assign. simpl.
  rewrite decide_True by done.
  by rewrite (setupProvider_absent (set_currentProvider id s)).
Qed.

(** C7, as stated, fails when the id is the current one: the service as
    the constructor leaves it has no key for openai, its current
    provider, and the switch to openai returns. *)
Lemma switch_to_current_without_key :
  absent (apiKeys constructor !! js "openai") ∧
  currentProvider constructor = js "openai" ∧
  switchProvider (js "openai") constructor = (Ret tt, constructor, []).
Proof. split; [by right|]. split; reflexivity. Qed.

(** C7, amended. The id is compared first: a switch to the current
    provider returns and changes nothing, with or without a key. A switch
    to another id for which no key is configured throws, the error of a
    missing key for one of the three providers and the error of an
    unsupported provider otherwise, after the current provider has been
    set to the id. *)
Theorem switchProvider_outcomes (id : jsstring) (s : t) :
  (id = currentProvider s → switchProvider id s = (Ret tt, s, [])) ∧
  (id ≠ currentProvider s → absent (apiKeys s !! toLowerCase id) →
     switchProvider id s =
       (Throw (setup_error id), set_currentProvider id s, [])).
Proof.
  split.
  - intros ->. apply switchProvider_same.
  - apply switchProvider_absent.
Qed.

Lemma switchProvider_outcomes_witness :
  switchProvider (js "openai") Sample.text_only_service
    = (Throw (Error (js "OpenAI API key not configured")),
       set_currentProvider (js "openai") Sample.text_only_service, []) ∧
  switchProvider (js "perplexity") Sample.text_only_service
    = (Ret tt, Sample.text_only_service, []).
Proof.
  split.
  - apply (switchProvider_outcomes (js "openai") Sample.text_only_service).
    + by vm_compute.
    + by right.
  - by apply (switchProvider_outcomes (js "perplexity") Sample.text_only_service).
Defined.



End Service.

(** ** The switch of provider from the window *)
Section Switch.
Import JS SnapScalpMain Expected.

(** C10. When the window asks for another provider than the current
    one and no key is configured for it, the handler answers with the
    failure and its message, and leaves a mixed state: the configuration
    and the service name the new provider, the model of the service is
    the one of the previous provider. *)
Theorem failed_switch_mixed_state (p : jsstring) (w : World) :
  toLowerCase p ≠ LLMService.currentProvider (llmService (self w)) →
  absent (LLMService.apiKeys (llmService (self w)) !! toLowerCase p) →
  ∃ w', switch_llm_provider p w
          = (Ret (SwitchFailure (message (setup_error (toLowerCase p)))), w', []) ∧
    provider (config (self w')) = toLowerCase p ∧
    LLMService.currentProvider (llmService (self w')) = toLowerCase p ∧
    LLMService.model (llmService (self w')) = LLMService.model (llmService (self w)).
Proof.
  intros Hne Hk.
  unfold switch_llm_provider, try_catch, mbind, M_bind, this, assign, on_llmService,
    on_member.
  simpl.
  rewrite (switchProvider_absent (toLowerCase p) (llmService (self w))).
  - simpl. by eexists.
  - done.
  - by rewrite toLowerCase_idemp.
Qed.

Lemma failed_switch_mixed_state_witness :
  ∃ w', switch_llm_provider (js "Claude") Sample.ready
          = (Ret (SwitchFailure (js "Claude API key not configured")), w', []) ∧
    provider (config (self w')) = js "claude" ∧
    LLMService.currentProvider (llmService (self w')) = js "claude" ∧
    LLMService.model (llmService (self w'))
      = Some (ChatOpenAI (mkModelOptions (js "sk-test") (js "gpt-5-chat-latest")
                            (1 # 10) 400 None)).
Proof.
  apply (failed_switch_mixed_state (js "Claude") Sample.ready).
  - by vm_compute.
  - by right.
Defined.

End Switch.

(** ** Decimal numerals

    [Number::toString] and [parseInt] on the integers a double holds
    exactly. *)
Section Numerals.
Import JS.

Lemma js_String c s : js (String c s) = N_of_ascii c :: js s.
Proof. reflexivity. Qed.

Lemma digits_are_digits d :
  Forall (λ c, is_digit c = true) (js (NilEmpty.string_of_uint d)).
Proof.
  induction d; simpl; rewrite ?js_String; by constructor.
Qed.

Lemma digit_chars_values s :
  Forall (λ c, is_digit c = true) s → digit_chars (digit_values s) = s.
Proof.
  induction 1 as [|c s Hc _ IH]; [done|].
  unfold digit_chars, digit_values in *. rewrite !fmap_cons, IH. f_equal.
  unfold is_digit in Hc. apply andb_true_iff in Hc as [H1%N.leb_le _]. lia.
Qed.

Lemma digit_prefix_digits s :
  Forall (λ c, is_digit c = true) s → digit_prefix dec_value s = digit_values s.
Proof.
  induction 1 as [|c s Hc _ IH]; [done|].
  simpl. unfold dec_value at 1. rewrite Hc, IH. done.
Qed.

Lemma digit_values_String c s :
  digit_values (js (String c s)) = (N_of_ascii c - 48) :: digit_values (js s).
Proof. reflexivity. Qed.

Lemma radix_value_acc d acc :
  foldl (λ a x, a * 10 + x) (Npos acc) (digit_values (js (NilEmpty.string_of_uint d)))
  = Npos (Pos.of_uint_acc d acc).
Proof.
  revert acc. induction d; intros acc; cbn [NilEmpty.string_of_uint Pos.of_uint_acc];
    [done|..]; rewrite digit_values_String; cbn [foldl]; rewrite <- IHd; f_equal;
    vm_compute (N_of_ascii _ - 48); lia.
Qed.

Lemma radix_value_digits d :
  radix_value 10 (digit_values (js (NilEmpty.string_of_uint d))) = N.of_uint d.
Proof.
  unfold radix_value, N.of_uint.
  induction d; cbn [NilEmpty.string_of_uint Pos.of_uint]; [done|..];
    rewrite digit_values_String; cbn [foldl]; [done|..];
    by rewrite <- radix_value_acc.
Qed.

Lemma radix_value_of_N n : radix_value 10 (digit_values (digits_of_N n)) = n.
Proof. unfold digits_of_N. rewrite radix_value_digits. apply DecimalN.Unsigned.of_to. Qed.


Lemma strip_zeros_decomp l : ∃ z, l = replicate z 0 ++ strip_zeros l.
Proof.
  induction l as [|d l [z IH]]; [by exists 0%nat|].
  simpl. destruct (N.eqb_spec d 0) as [->|]; [|by exists 0%nat].
  exists (S z). simpl. by f_equal.
Qed.

(** The digits split into the significant ones and trailing zeros. *)
Lemma trailing_zeros l :
  ∃ z, l = reverse (strip_zeros (reverse l)) ++ replicate z 0.
Proof.
  destruct (strip_zeros_decomp (reverse l)) as [z Hz]. exists z.
  rewrite <- (reverse_involutive l) at 1. rewrite Hz at 1.
  by rewrite reverse_app, reverse_replicate.
Qed.

Lemma significant_nonempty h t :
  h ≠ 0 → reverse (strip_zeros (reverse (h :: t))) ≠ [].
Proof.
  intros Hh Hnil. destruct (trailing_zeros (h :: t)) as [z Hz].
  rewrite Hnil in Hz. simpl in Hz. destruct z; [done|]. simpl in Hz. congruence.
Qed.

(** A positive number has digits, the first of which is not zero. *)
Lemma leading_digit p :
  ∃ h t, digit_values (digits_of_N (Npos p)) = h :: t ∧ h ≠ 0.
Proof.
  unfold digits_of_N. cbn [N.to_uint].
  pose proof (DecimalPos.Unsigned.to_uint_nonzero p) as Hz.
  pose proof (DecimalPos.Unsigned.to_uint_nonnil p) as Hn.
  assert (Hu : Decimal.unorm (Pos.to_uint p) = Pos.to_uint p).
  { by rewrite <- DecimalPos.Unsigned.to_of, DecimalPos.Unsigned.of_to. }
  destruct (Pos.to_uint p) as [|u|u|u|u|u|u|u|u|u|u] eqn:E; [done|..];
    cbn [NilEmpty.string_of_uint]; rewrite digit_values_String;
    try (eexists _, _; split; [reflexivity|by vm_compute]).
  exfalso. rewrite DecimalFacts.unorm_D0 in Hu.
  unfold Decimal.unorm in Hu.
  destruct (Decimal.nzhead u) eqn:Hh; try discriminate Hu.
  - injection Hu as <-. by apply Hz.
  - exact (DecimalFacts.nzhead_nonzero _ _ Hh).
Qed.

Lemma radix_value_lower acc l :
  acc * 10 ^ N.of_nat (length l) ≤ foldl (λ a x, a * 10 + x) acc l.
Proof.
  revert acc. induction l as [|d l IH]; intros acc; simpl foldl.
  - simpl. lia.
  - etrans; [|apply IH].
    rewrite length_cons, Nat2N.inj_succ, N.pow_succ_r'. nia.
Qed.

Lemma digits_length n :
  (Z.of_N n < 2 ^ 53)%Z → (length (digit_values (digits_of_N n)) ≤ 21)%nat.
Proof.
  intros Hn. destruct n as [|p]; [vm_compute; lia|].
  destruct (leading_digit p) as (h & t & E & Hh).
  pose proof (radix_value_of_N (Npos p)) as Hv. rewrite E in Hv |- *.
  unfold radix_value in Hv. cbn [foldl] in Hv.
  replace (0 * 10 + h) with h in Hv by lia.
  pose proof (radix_value_lower h t) as Hl. rewrite Hv in Hl.
  destruct (decide (length t < 21)%nat) as [|Hge]; [simpl; lia|].
  exfalso.
  assert (10 ^ 21 ≤ 10 ^ N.of_nat (length t)) by (apply N.pow_le_mono_r; lia).
  assert (10 ^ N.of_nat (length t) ≤ h * 10 ^ N.of_nat (length t)) by nia.
  lia.
Qed.


Lemma Num_of_N_neg n : neg (Num_of_Z (Z.of_N n)) = false.
Proof.
  unfold Num_of_Z, normalize.
  replace (Z.of_N n <? 0)%Z with false by (symmetry; apply Z.ltb_ge; lia).
  by destruct (reverse _).
Qed.

(** [Number::toString] of a safe integer is its decimal numeral. *)
Lemma Num_toString_of_N n :
  (Z.of_N n < 2 ^ 53)%Z → Num_toString (Num_of_Z (Z.of_N n)) = digits_of_N n.
Proof.
  intros Hn. destruct n as [|p]; [done|].
  pose proof (digits_length (Npos p) Hn) as Hlen.
  destruct (leading_digit p) as (h & t & E & Hh).
  pose proof (digits_are_digits (N.to_uint (Npos p))) as Hd.
  fold (digits_of_N (Npos p)) in Hd. apply digit_chars_values in Hd.
  unfold Num_of_Z, normalize.
  replace (Z.to_N (Z.abs (Z.of_N (Npos p)))) with (Npos p) by lia.
  replace (Z.of_N (Npos p) <? 0)%Z with false by done.
  rewrite E in Hlen, Hd |- *. cbn [strip_zeros].
  replace (h =? 0) with false by (symmetry; apply N.eqb_neq; exact Hh).
  pose proof (significant_nonempty h t Hh) as Hne.
  destruct (trailing_zeros (h :: t)) as [z Hz].
  destruct (reverse (strip_zeros (reverse (h :: t)))) as [|d1 rest] eqn:Es; [done|].
  unfold Num_toString. cbn [digs point neg].
  assert (Hl : length (h :: t) = (length (d1 :: rest) + z)%nat).
  { rewrite Hz at 1. by rewrite length_app, length_replicate. }
  rewrite Nat.sub_diag, Z.sub_0_r.
  replace ((Z.of_nat (length (d1 :: rest)) <=? Z.of_nat (length (h :: t)))
           && (Z.of_nat (length (h :: t)) <=? 21))%Z with true
    by (symmetry; apply andb_true_iff; split; apply Z.leb_le; lia).
  replace (Z.to_nat (Z.of_nat (length (h :: t)) - Z.of_nat (length (d1 :: rest))))
    with z by lia.
  rewrite <- Hd, Hz. unfold digit_chars. by rewrite fmap_app, fmap_replicate.
Qed.

(** [parseInt] reads a decimal numeral back. *)
Lemma parseInt_digits n :
  parseInt_string (digits_of_N n) = Fin (Num_of_Z (Z.of_N n)).
Proof.
  pose proof (digits_are_digits (N.to_uint n)) as Hd.
  fold (digits_of_N n) in Hd.
  pose proof (radix_value_of_N n) as Hv.
  pose proof (Num_of_N_neg n) as Hneg.
  unfold parseInt_string.
  destruct (digits_of_N n) as [|c s] eqn:E.
  { destruct n; discriminate E || (destruct (leading_digit p) as (? & ? & E' & _);
      by rewrite E in E'). }
  apply Forall_cons in Hd as [Hc Hs].
  assert (Hw : is_ws c = false).
  { unfold is_digit in Hc. apply andb_true_iff in Hc as [?%N.leb_le ?%N.leb_le].
    unfold is_ws. cmp. }
  cbn [trimStart]. rewrite Hw.
  assert ((c =? 45) = false ∧ (c =? 43) = false) as [-> ->].
  { unfold is_digit in Hc. apply andb_true_iff in Hc as [?%N.leb_le ?%N.leb_le].
    split; apply N.eqb_neq; lia. }
  assert (Hp : digit_prefix dec_value (c :: s) = digit_values (c :: s))
    by (apply digit_prefix_digits; by constructor).
  destruct s as [|cx s0].
  - rewrite Hp. cbn [digit_values fmap list_fmap]. simpl in Hv.
    unfold digit_values in Hv. cbn [fmap list_fmap] in Hv. rewrite Hv.
    destruct (Num_of_Z (Z.of_N n)); simpl in *; by subst.
  - apply Forall_cons in Hs as [Hcx _].
    unfold is_digit in Hcx. apply andb_true_iff in Hcx as [?%N.leb_le ?%N.leb_le].
    replace (cx =? 120) with false by (symmetry; apply N.eqb_neq; lia).
    replace (cx =? 88) with false by (symmetry; apply N.eqb_neq; lia).
    rewrite andb_false_r. rewrite Hp.
    destruct (digit_values (c :: cx :: s0)) eqn:Ev; [done|]. rewrite Hv.
    destruct (Num_of_Z (Z.of_N n)); simpl in *; by subst.
Qed.

Lemma digits_nonempty n : digits_of_N n ≠ [].
Proof.
  destruct n as [|p]; [done|].
  destruct (leading_digit p) as (h & t & E & _). by intros Hnil; rewrite Hnil in E.
Qed.

End Numerals.

(** ** The renderer *)
Section Renderer.
Import JS SnapScalpRenderer Payload.

Lemma or_else_opt_str (o : option jsstring) d :
  or_else (default VUndefined (VStr <$> o)) (VStr d) = VStr (or_text o d).
Proof. by destruct o as [[|]|]. Qed.

Lemma or_else_text (o : option jsstring) :
  or_else (default VUndefined (VStr <$> o)) (VStr []) = VStr (default [] o).
Proof. by destruct o as [[|]|]. Qed.

Lemma targets_value o :
  or_else (default VUndefined (strings_value <$> o)) (VArr [])
  = VArr (VStr <$> default [] o).
Proof. by destruct o. Qed.

Lemma strings_lookup (l : list jsstring) i :
  or_else (get_index (VArr (VStr <$> l)) i) (VStr emdash)
  = VStr (or_text (take 3 l !! i) emdash) ∨ (3 ≤ i)%nat.
Proof.
  destruct (decide (i < 3)%nat) as [Hi|]; [left|right; lia].
  rewrite lookup_take_lt by done. unfold get_index. rewrite list_lookup_fmap.
  by destruct (l !! i) as [[|]|].
Qed.

Ltac run_monad :=
  cbv beta iota zeta delta [mbind M_bind mret M_ret must assign throw try_catch this].

Lemma scenario_row_run v sc d :
  is_scenario v sc →
  scenario_row v d =
    (Ret tt, set_scenariosTbody (scenariosTbody d ++ [shown_row sc]) d, []).
Proof.
  intros (f & -> & Hside & Hentry & Hstop & Htargets).
  unfold scenario_row, get. rewrite Hside, Hentry, Hstop, Htargets.
  run_monad. rewrite !or_else_text, targets_value.
  destruct (strings_lookup (default [] (targets sc)) 0) as [->|?]; [|lia].
  destruct (strings_lookup (default [] (targets sc)) 1) as [->|?]; [|lia].
  destruct (strings_lookup (default [] (targets sc)) 2) as [->|?]; [|lia].
  run_monad. cbn [mapM ToString call_toLowerCase]. run_monad.
  rewrite ?app_nil_r. reflexivity.
Qed.

Lemma forEach_rows vs scs d :
  Forall2 is_scenario vs scs →
  forEach scenario_row vs d =
    (Ret tt, set_scenariosTbody (scenariosTbody d ++ (shown_row <$> scs)) d, []).
Proof.
  intros H. revert d. induction H as [|v sc vs scs Hv _ IH]; intros d.
  - cbn [forEach fmap list_fmap]. rewrite app_nil_r. by destruct d.
  - cbn [forEach]. run_monad. rewrite (scenario_row_run v sc d Hv), IH.
    cbn [scenariosTbody set_scenariosTbody]. rewrite fmap_cons, <- app_assoc.
    by destruct d.
Qed.

Lemma join_strs_value sep (l : list jsstring) :
  call_join sep (VArr (VStr <$> l)) = Some (join sep l).
Proof.
  unfold call_join.
  assert (mapM (λ x, match x with VUndefined | VNull => Some [] | _ => ToString x end)
            (VStr <$> l) = Some l) as ->; [|done].
  induction l as [|s l IH]; [done|]. rewrite fmap_cons. cbn [mapM]. by rewrite IH.
Qed.

Lemma level_text_run lv k (o : option (list jsstring)) d :
  get lv k = Some (default VUndefined (strings_value <$> o)) →
  level_text lv k d = (Ret (shown_levels o), d, []).
Proof.
  intros Hg. unfold level_text. rewrite Hg. run_monad.
  rewrite targets_value. cbn [call_slice].
  rewrite (slice_take 2), <- fmap_take, join_strs_value.
  unfold shown_levels, or_text. by destruct (join _ _).
Qed.

Lemma levels_get (p : Payload.t) f sel k :
  match levels p with
  | None => own_property (js "levels") f = None
  | Some l => ∃ v, own_property (js "levels") f = Some v ∧ is_levels v l
  end →
  (∀ v l, is_levels v l → ∃ g, v = VObj g ∧ own_property k g = strings_value <$> sel l) →
  get (or_else (default VUndefined (own_property (js "levels") f)) (VObj [])) k
  = Some (default VUndefined (strings_value <$> (levels p ≫= sel))).
Proof.
  intros Hl Hsel. destruct (levels p) as [l|].
  - destruct Hl as (v & -> & Hv). destruct (Hsel _ _ Hv) as (g & -> & Hg).
    cbn. by rewrite Hg.
  - by rewrite Hl.
Qed.

Lemma confidence_value (c : option Scalar) :
  Number_toString <$>
    parseInt (or_else (default VUndefined (scalar_value <$> c)) (VNum zero))
  = Some (shown_confidence c).
Proof.
  destruct c as [[n|[|a s]]|]; try done.
  unfold or_else, shown_confidence. simpl.
  destruct (is_zero n); simpl; [by vm_compute|done].
Qed.

Lemma scenarios_value (p : Payload.t) f :
  match scenarios p with
  | None => own_property (js "scenarios") f = None
  | Some scs => ∃ vs, own_property (js "scenarios") f = Some (VArr vs) ∧
                      Forall2 is_scenario vs scs
  end →
  ∃ vs, call_slice 0 2 (or_else (default VUndefined (own_property (js "scenarios") f))
                          (VArr [])) = Some (VArr vs)
        ∧ Forall2 is_scenario vs (take 2 (default [] (scenarios p))).
Proof.
  destruct (scenarios p) as [scs|].
  - intros (vs & -> & Hvs). exists (take 2 vs). cbn. rewrite (slice_take 2).
    split; [done|]. by apply Forall2_take.
  - intros ->. exists []. split; [done|]. constructor.
Qed.

(** The renderer shows of a conforming payload what [present] tells. *)
Lemma updateResults_present text data p d :
  JSON.parse text = Some data → conforms data p →
  updateResults text d = (Ret tt, present p d, []).
Proof.
  intros Hparse (f & -> & Hdec & Hconf & Hreason & Hscs & Hlev).
  pose proof (levels_get p f support (js "support") Hlev) as Hsup.
  pose proof (levels_get p f resistance (js "resistance") Hlev) as Hres.
  destruct (scenarios_value p f Hscs) as (vs & Hslice & Hvs).
  pose proof (confidence_value (confidence p)) as Hc.
  destruct (parseInt _) as [n|] eqn:Hn; [|done]. injection Hc as Hc.
  unfold updateResults. apply try_catch_ret.
  rewrite Hparse. quiet_step reflexivity.
  cbn [get]. rewrite Hdec, Hconf, Hreason.
  quiet_step reflexivity. rewrite (or_else_opt_str _ (js "WAIT")).
  quiet_step reflexivity. rewrite Hn.
  quiet_step reflexivity. quiet_step reflexivity.
  rewrite or_else_text. cbn [call_substring].
  quiet_step reflexivity. quiet_step reflexivity.
  rewrite Hslice.
  quiet_step reflexivity. quiet_step reflexivity.
  cbn [call_toUpperCase call_toLowerCase].
  do 8 quiet_step reflexivity.
  unfold updateScenariosTable.
  quiet_step (erewrite bind_quiet by reflexivity; by apply forEach_rows).
  quiet_step (apply level_text_run, Hsup; intros v l (g & -> & Hs & _); by exists g).
  quiet_step (apply level_text_run, Hres; intros v l (g & -> & _ & Hs); by exists g).
  quiet_step reflexivity.
  unfold assign, present, or_text, substring. rewrite Hc, drop_0. cbn [Nat.sub].
  by destruct (take 80 _).
Qed.




End Renderer.
